(** * Request admission: the rate-limit middleware of the Fastify TODO service

    Shallow embedding of [apps/server/src/middleware/rate-limit.ts] and of the
    route-scope helpers of [docs/tasks/05.md], with the properties of the
    admission pipeline stated over them.

    Numbers are JavaScript numbers holding integers (millisecond timestamps,
    counters, limits); they are modelled by [Z].  The module-level
    [rateLimitStore] is a [Map] from keys to record *objects*: the objects
    live in a heap and the map holds references, because the [finish]
    listener of a request keeps the object it read at arrival and mutates it
    later. *)

From Stdlib Require Import ZArith Lia.
From stdpp Require Import gmap strings list fin_maps pretty.

Local Open Scope Z_scope.

(** ** Requests and replies *)

Record FastifyRequest := {
  ip : string;
  url : string;
  routerPath : string
}.

(** A header value is either a string or what [new Date(ms).toISOString()]
    prints for the epoch time [ms]. *)
Inductive HeaderValue :=
  | HStr (s : string)
  | HIsoDate (epochMs : Z).

(** [n.toString()] for an integer [n]. *)
Definition toString (n : Z) : string := pretty n.

(** The object passed to [reply.send] on rejection. *)
Record ErrorBody := {
  error : string;
  message : string;
  retryAfter : Z
}.

Record FastifyReply := {
  statusCode : Z;
  headers : gmap string HeaderValue;
  payload : option ErrorBody;
  sent : bool
}.

Definition freshReply : FastifyReply :=
  {| statusCode := 200; headers := ∅; payload := None; sent := false |}.

(** [reply.header(name, value)] *)
Definition header (name : string) (v : HeaderValue) (r : FastifyReply) : FastifyReply :=
  {| statusCode := statusCode r; headers := <[name := v]> (headers r);
     payload := payload r; sent := sent r |}.

(** [reply.status(code)] *)
Definition status (code : Z) (r : FastifyReply) : FastifyReply :=
  {| statusCode := code; headers := headers r; payload := payload r; sent := sent r |}.

(** [reply.send(body)] *)
Definition send (b : ErrorBody) (r : FastifyReply) : FastifyReply :=
  {| statusCode := statusCode r; headers := headers r; payload := Some b; sent := true |}.

(** [Math.ceil(n / d)] for integers [n] and a positive integer [d]. *)
Definition ceilDiv (n d : Z) : Z := - ((- n) / d).

(** ** Options and the resolved policy *)

Record RateLimitOptions := {
  o_windowMs : option Z;
  o_max : option Z;
  o_message : option string;
  o_standardHeaders : option bool;
  o_legacyHeaders : option bool;
  o_skipSuccessfulRequests : option bool;
  o_skipFailedRequests : option bool;
  o_keyGenerator : option (FastifyRequest → string)
}.

Definition noOptions : RateLimitOptions :=
  {| o_windowMs := None; o_max := None; o_message := None;
     o_standardHeaders := None; o_legacyHeaders := None;
     o_skipSuccessfulRequests := None; o_skipFailedRequests := None;
     o_keyGenerator := None |}.

(** The constants a middleware instance closes over, after the defaults of
    [createRateLimitMiddleware] are filled in. *)
Record Policy := {
  windowMs : Z;
  max : Z;
  policyMessage : string;
  standardHeaders : bool;
  legacyHeaders : bool;
  skipSuccessfulRequests : bool;
  skipFailedRequests : bool;
  keyGenerator : FastifyRequest → string
}.

Definition resolve (o : RateLimitOptions) : Policy :=
  {| windowMs := default (15 * 60 * 1000) (o_windowMs o);
     max := default 100 (o_max o);
     policyMessage := default "Too many requests, please try again later" (o_message o);
     standardHeaders := default true (o_standardHeaders o);
     legacyHeaders := default false (o_legacyHeaders o);
     skipSuccessfulRequests := default false (o_skipSuccessfulRequests o);
     skipFailedRequests := default false (o_skipFailedRequests o);
     keyGenerator := default ip (o_keyGenerator o) |}.

(** ** The shared store *)

Record RateLimitData := {
  count : Z;
  resetTime : Z
}.

(** [heap] holds the [RateLimitData] objects ever allocated, a reference is
    an index into it; [rateLimitStore] is the module-level [Map]. *)
Record World := {
  heap : list RateLimitData;
  rateLimitStore : gmap string nat
}.

Definition emptyWorld : World := {| heap := []; rateLimitStore := ∅ |}.

(** [data.resetTime <= now] *)
Definition expired (now : Z) (d : RateLimitData) : bool := resetTime d <=? now.

(** The object behind a map entry, when it has not expired.  Every reference
    the code stores is allocated; an unallocated one reads as expired. *)
Definition liveData (h : list RateLimitData) (now : Z) (r : nat) : option RateLimitData :=
  match h !! r with
  | Some d => if expired now d then None else Some d
  | None => None
  end.

(** The record of [key] in the map, as a value. *)
Definition record (w : World) (key : string) : option RateLimitData :=
  rateLimitStore w !! key ≫= λ r, heap w !! r.

(** Lines 46-52: every entry whose [resetTime <= now] is deleted. *)
Definition sweep (now : Z) (w : World) : World :=
  {| heap := heap w;
     rateLimitStore :=
       filter (λ kr : string * nat, is_Some (liveData (heap w) now kr.2))
              (rateLimitStore w) |}.

(** [rateLimitStore.get(key)] together with the test [data.resetTime <= now]:
    the reference and the object of [key] when the map has a live one. *)
Definition lookupLive (w : World) (now : Z) (key : string) : option (nat * RateLimitData) :=
  rateLimitStore w !! key ≫= λ r, (λ d, (r, d)) <$> liveData (heap w) now r.

(** Lines 55-62: the object of [key], created with [count = 0] when the map
    has none (or an expired one). *)
Definition getOrCreate (p : Policy) (key : string) (now : Z) (w : World)
    : World * nat * RateLimitData :=
  match lookupLive w now key with
  | Some (r, d) => (w, r, d)
  | None =>
      let r := length (heap w) in
      let d := {| count := 0; resetTime := now + windowMs p |} in
      ({| heap := heap w ++ [d]; rateLimitStore := <[key := r]> (rateLimitStore w) |}, r, d)
  end.

(** What the middleware works on after lines 46-62. *)
Definition observe (p : Policy) (key : string) (now : Z) (w : World)
    : World * nat * RateLimitData :=
  getOrCreate p key now (sweep now w).

(** ** The middleware *)

(** The closure registered by [reply.raw.on('finish', ...)]: it keeps the
    key and the object read at arrival. *)
Record FinishListener := {
  l_policy : Policy;
  l_key : string;
  l_data : nat
}.

Record HookResult := {
  world : World;
  reply : FastifyReply;
  listener : option FinishListener
}.

Definition stdHeaders (p : Policy) (remaining : string) (d : RateLimitData)
    (r : FastifyReply) : FastifyReply :=
  if standardHeaders p then
    header "RateLimit-Reset" (HIsoDate (resetTime d))
      (header "RateLimit-Remaining" (HStr remaining)
        (header "RateLimit-Limit" (HStr (toString (max p))) r))
  else r.

Definition oldHeaders (p : Policy) (remaining : string) (d : RateLimitData)
    (r : FastifyReply) : FastifyReply :=
  if legacyHeaders p then
    header "X-RateLimit-Reset" (HStr (toString (ceilDiv (resetTime d) 1000)))
      (header "X-RateLimit-Remaining" (HStr remaining)
        (header "X-RateLimit-Limit" (HStr (toString (max p))) r))
  else r.

(** Lines 38-121, run at time [now] (the value of [Date.now()]). *)
Definition rateLimitMiddleware (p : Policy) (request : FastifyRequest) (now : Z)
    (w : World) (rep : FastifyReply) : HookResult :=
  let key := keyGenerator p request in
  let '(w1, r, data) := observe p key now w in
  if max p <=? count data then
    let timeUntilReset := ceilDiv (resetTime data - now) 1000 in
    let rep1 := oldHeaders p "0" data (stdHeaders p "0" data rep) in
    let rep2 := header "Retry-After" (HStr (toString timeUntilReset)) rep1 in
    {| world := w1;
       reply := send {| error := "Too Many Requests"; message := policyMessage p;
                        retryAfter := timeUntilReset |} (status 429 rep2);
       listener := None |}
  else
    let remaining := toString (max p - count data - 1) in
    {| world := w1;
       reply := oldHeaders p remaining data (stdHeaders p remaining data rep);
       listener := Some {| l_policy := p; l_key := key; l_data := r |} |}.

(** Lines 91-99, reading [reply.statusCode] when the response has finished. *)
Definition shouldCount (p : Policy) (code : Z) : bool :=
  if skipSuccessfulRequests p && (200 <=? code) && (code <? 300) then false
  else if skipFailedRequests p && (400 <=? code) then false
  else true.

(** Lines 102-107: the [finish] listener, run with the final status code. *)
Definition onFinish (l : FinishListener) (code : Z) (w : World) : World :=
  if shouldCount (l_policy l) code then
    {| heap := match heap w !! l_data l with
               | Some d => <[l_data l := {| count := count d + 1; resetTime := resetTime d |}]> (heap w)
               | None => heap w
               end;
       rateLimitStore := <[l_key l := l_data l]> (rateLimitStore w) |}
  else w.

Definition createRateLimitMiddleware (o : RateLimitOptions) :=
  rateLimitMiddleware (resolve o).

(** The three exported instances. *)
Definition defaultRateLimitMiddleware := createRateLimitMiddleware noOptions.

Definition strictOptions : RateLimitOptions :=
  {| o_windowMs := Some (5 * 60 * 1000); o_max := Some 10;
     o_message := Some "Too many requests to this sensitive endpoint";
     o_standardHeaders := None; o_legacyHeaders := None;
     o_skipSuccessfulRequests := None; o_skipFailedRequests := None;
     o_keyGenerator := None |}.

Definition strictRateLimitMiddleware := createRateLimitMiddleware strictOptions.

Definition authOptions : RateLimitOptions :=
  {| o_windowMs := Some (15 * 60 * 1000); o_max := Some 5;
     o_message := Some "Too many authentication attempts";
     o_standardHeaders := None; o_legacyHeaders := None;
     o_skipSuccessfulRequests := Some true; o_skipFailedRequests := None;
     o_keyGenerator := None |}.

Definition authRateLimitMiddleware := createRateLimitMiddleware authOptions.

(** ** One request after another *)

(** A request served to completion before anything else happens: the
    middleware runs at [now]; when it lets the request through, the route
    handler answers with status [code] and the [finish] listener runs. *)
Definition serve (p : Policy) (request : FastifyRequest) (now code : Z) (w : World)
    : World * FastifyReply :=
  let res := rateLimitMiddleware p request now w freshReply in
  match listener res with
  | Some l => (onFinish l code (world res), status code (reply res))
  | None => (world res, reply res)
  end.

Fixpoint serveAll (p : Policy) (request : FastifyRequest) (reqs : list (Z * Z))
    (w : World) : World * list FastifyReply :=
  match reqs with
  | [] => (w, [])
  | (now, code) :: rest =>
      let '(w1, rep) := serve p request now code w in
      let '(w2, reps) := serveAll p request rest w1 in
      (w2, rep :: reps)
  end.

Definition scenarioPolicy : Policy :=
  resolve {| o_windowMs := Some 60000; o_max := Some 3; o_message := None;
             o_standardHeaders := None; o_legacyHeaders := None;
             o_skipSuccessfulRequests := None; o_skipFailedRequests := None;
             o_keyGenerator := None |}.

Definition client : FastifyRequest :=
  {| ip := "1.2.3.4"; url := "/api/v1/todos"; routerPath := "/api/v1/todos" |}.

Definition remainingOf (rep : FastifyReply) : option HeaderValue :=
  headers rep !! "RateLimit-Remaining".

(** The world of scenario 1 after its three admitted requests. *)
Definition afterThree : World :=
  (serveAll scenarioPolicy client [(0, 200); (1000, 200); (2000, 200)] emptyWorld).1.

(** The world without any history of [key]. *)
Definition forget (key : string) (w : World) : World :=
  {| heap := heap w; rateLimitStore := delete key (rateLimitStore w) |}.

(** A final status that a skip flag of the policy keeps out of the count. *)
Definition exempt (p : Policy) (code : Z) : Prop :=
  (skipFailedRequests p = true ∧ 400 ≤ code)
  ∨ (skipSuccessfulRequests p = true ∧ 200 ≤ code < 300).

(** Scenario 3: limit 5, failed requests skipped. *)
Definition failurePolicy : Policy :=
  resolve {| o_windowMs := None; o_max := Some 5; o_message := None;
             o_standardHeaders := None; o_legacyHeaders := None;
             o_skipSuccessfulRequests := None; o_skipFailedRequests := Some true;
             o_keyGenerator := None |}.

(** Scenario 5: limit 1. *)
Definition onePolicy : Policy :=
  resolve {| o_windowMs := Some 60000; o_max := Some 1; o_message := None;
             o_standardHeaders := None; o_legacyHeaders := None;
             o_skipSuccessfulRequests := None; o_skipFailedRequests := None;
             o_keyGenerator := None |}.

(** ** Route scope ([docs/tasks/05.md]) *)

Record MiddlewareOptions := {
  enabled : option bool;
  skipRoutes : option (list string);
  onlyRoutes : option (list string)
}.

(** [list.includes(route)] *)
Definition includes (l : list string) (route : string) : bool :=
  bool_decide (route ∈ l).

(** [BaseMiddleware.shouldSkip]: an absent list is falsy, a present one
    (empty or not) is truthy; an absent [enabled] is falsy. *)
Definition shouldSkip (options : MiddlewareOptions) (request : FastifyRequest) : bool :=
  let route := routerPath request in
  if match onlyRoutes options with
     | Some l => negb (includes l route)
     | None => false
     end then true
  else if match skipRoutes options with
          | Some l => includes l route
          | None => false
          end then true
  else negb (default false (enabled options)).

(** [s.startsWith(pre)] *)
Definition startsWith (s pre : string) : bool := String.prefix pre s.

(** [s.endsWith(suf)] *)
Definition endsWith (s suf : string) : bool :=
  (String.length suf <=? String.length s)%nat
  && String.eqb (String.substring (String.length s - String.length suf)
                   (String.length suf) s) suf.

(** [s.slice(0, -k)] *)
Definition sliceEnd (s : string) (k : nat) : string :=
  String.substring 0 (String.length s - k) s.

(** The callback given to [skipRoutes.some] in the JWT [onRequest] hook. *)
Definition matchesEntry (requestUrl route : string) : bool :=
  if endsWith route "/*" then startsWith requestUrl (sliceEnd route 2)
  else String.eqb requestUrl route.

(** The local [shouldSkip] of the JWT [onRequest] hook; it reads
    [request.url], and [config.auth.jwt.skipRoutes || []]. *)
Definition jwtShouldSkip (jwtSkipRoutes : option (list string)) (request : FastifyRequest)
    : bool :=
  existsb (matchesEntry (url request)) (default [] jwtSkipRoutes).

(** The matcher as section 4.1 of the spec words it, over the two lists of
    the stage scope (an unconfigured list is empty). *)
Definition appliesPerSpec (only skip : list string) (requestRoute : string) : bool :=
  match only with
  | _ :: _ => includes only requestRoute
  | [] => negb (existsb (matchesEntry requestRoute) skip)
  end.

(** ** Requests in flight together *)

(** Node runs one callback at a time.  The middleware body has no [await],
    so an arrival runs lines 42-120 in one piece; the [finish] listener of a
    request runs later, as an event of its own, and arrivals of other
    requests can come in between. *)
Inductive Event :=
  | Arrive (id : nat) (p : Policy) (request : FastifyRequest) (now : Z)
  | Finish (id : nat) (code : Z).

Record Server := {
  s_world : World;
  s_pending : gmap nat FinishListener;
  s_replies : gmap nat FastifyReply
}.

Definition idle (w : World) : Server :=
  {| s_world := w; s_pending := ∅; s_replies := ∅ |}.

Definition step (s : Server) (e : Event) : Server :=
  match e with
  | Arrive id p request now =>
      let res := rateLimitMiddleware p request now (s_world s) freshReply in
      {| s_world := world res;
         s_pending := match listener res with
                      | Some l => <[id := l]> (s_pending s)
                      | None => s_pending s
                      end;
         s_replies := <[id := reply res]> (s_replies s) |}
  | Finish id code =>
      match s_pending s !! id with
      | Some l =>
          {| s_world := onFinish l code (s_world s);
             s_pending := delete id (s_pending s);
             s_replies := alter (status code) id (s_replies s) |}
      | None => s
      end
  end.

Definition run (es : list Event) (s : Server) : Server := foldl step s es.

Definition isFinish (e : Event) : Prop :=
  match e with Finish _ _ => True | Arrive _ _ _ _ => False end.

(** The request [id] got past the middleware. *)
Definition admitted (s : Server) (id : nat) : bool :=
  match s_replies s !! id with
  | Some rep => negb (sent rep)
  | None => false
  end.

(** The request [id] was answered by the middleware with 429. *)
Definition rejected (s : Server) (id : nat) : bool :=
  match s_replies s !! id with
  | Some rep => sent rep && (statusCode rep =? 429)
  | None => false
  end.

(** ** The hook chain *)

Definition Hook := FastifyRequest → Z → World → FastifyReply → HookResult.

Record Lifecycle := {
  lc_world : World;
  lc_reply : FastifyReply;
  lc_listeners : list FinishListener;
  lc_ran : list string
}.

(** Modelled from the spec: the orchestrator of section 4.4 is Fastify's own
    hook runner, which is not part of the repository.  Stages run in
    registration order; a stage that has sent the reply ends the chain. *)
Fixpoint runHooks (hooks : list (string * Hook)) (request : FastifyRequest) (now : Z)
    (w : World) (rep : FastifyReply) : Lifecycle :=
  match hooks with
  | [] => {| lc_world := w; lc_reply := rep; lc_listeners := []; lc_ran := [] |}
  | (name, h) :: rest =>
      let res := h request now w rep in
      if sent (reply res) then
        {| lc_world := world res; lc_reply := reply res;
           lc_listeners := option_list (listener res); lc_ran := [name] |}
      else
        let lc := runHooks rest request now (world res) (reply res) in
        {| lc_world := lc_world lc; lc_reply := lc_reply lc;
           lc_listeners := option_list (listener res) ++ lc_listeners lc;
           lc_ran := name :: lc_ran lc |}
  end.

(** Modelled from the spec: when no stage has sent the reply, control passes
    to the route handler (section 4.4). *)
Definition handleRequest (hooks : list (string * Hook))
    (handler : FastifyRequest → FastifyReply → FastifyReply)
    (request : FastifyRequest) (now : Z) (w : World) : Lifecycle :=
  let lc := runHooks hooks request now w freshReply in
  if sent (lc_reply lc) then lc
  else {| lc_world := lc_world lc; lc_reply := handler request (lc_reply lc);
          lc_listeners := lc_listeners lc; lc_ran := lc_ran lc ++ ["handler"] |}.

(** ** Bursts, several listeners, and the counters' sign *)

(** Requests of one client arriving one after the other, none finished. *)
Fixpoint arrivals (p : Policy) (request : FastifyRequest) (first : nat) (ts : list Z)
    : list Event :=
  match ts with
  | [] => []
  | now :: rest => Arrive first p request now :: arrivals p request (S first) rest
  end.

(** The responses of requests [first], ..., [first + n - 1] finishing in
    that order, each with status [code]. *)
Definition finishes (first n : nat) (code : Z) : list Event :=
  (λ id, Finish id code) <$> seq first n.

(** The [finish] listeners of one response, run in the order in which the
    hooks registered them. *)
Definition finishAll (ls : list FinishListener) (code : Z) (w : World) : World :=
  foldl (λ w1 l, onFinish l code w1) w ls.

(** No object has a negative count. *)
Definition nonnegCounts (w : World) : Prop :=
  Forall (λ d, 0 ≤ count d) (heap w).

(** ** The memory store of [docs/tasks/05.md] *)

Module Task05.

(** What [increment] resolves to. *)
Record Hit := {
  totalHits : Z;
  timeToExpire : Z
}.

(** [MemoryRateLimitStore.increment], run at time [now].  The records are
    reached through the map only (read, changed, set back), so the map holds
    them as values. *)
Definition increment (key : string) (now : Z) (store : gmap string RateLimitData)
    : gmap string RateLimitData * Hit :=
  let opened :=
    let resetTime := now + 60000 in
    (<[key := {| count := 1; resetTime := resetTime |}]> store,
     {| totalHits := 1; timeToExpire := resetTime - now |}) in
  match store !! key with
  | Some current =>
      if resetTime current <? now then opened
      else
        (<[key := {| count := count current + 1; resetTime := resetTime current |}]> store,
         {| totalHits := count current + 1; timeToExpire := resetTime current - now |})
  | None => opened
  end.

(** [MemoryRateLimitStore.decrement] *)
Definition decrement (key : string) (store : gmap string RateLimitData)
    : gmap string RateLimitData :=
  match store !! key with
  | Some current =>
      if 0 <? count current then
        <[key := {| count := count current - 1; resetTime := resetTime current |}]> store
      else store
  | None => store
  end.

(** [MemoryRateLimitStore.resetKey] *)
Definition resetKey (key : string) (store : gmap string RateLimitData)
    : gmap string RateLimitData :=
  delete key store.

(** No record of the store ends later than a minute after [now]. *)
Definition windowsWithin (now : Z) (store : gmap string RateLimitData) : Prop :=
  ∀ k d, store !! k = Some d → resetTime d ≤ now + 60000.

Definition nonneg (store : gmap string RateLimitData) : Prop :=
  ∀ k d, store !! k = Some d → 0 ≤ count d.

End Task05.

(** ** Strings *)

(** [s.slice(n)] *)
Fixpoint dropString (n : nat) (s : string) : string :=
  match n, s with
  | O, _ => s
  | S n', String _ s' => dropString n' s'
  | S _, EmptyString => EmptyString
  end.

(** [s.replace(pat, rep)] for a string pattern and a replacement without
    [$] patterns: the first occurrence is replaced. *)
Fixpoint replaceFirst (pat rep s : string) : string :=
  if String.prefix pat s then rep +:+ dropString (String.length pat) s
  else match s with
       | EmptyString => EmptyString
       | String c s' => String c (replaceFirst pat rep s')
       end.

(** ** Authentication ([middleware/auth.ts]) *)

Module Auth.

Record User := {
  id : string;
  email : option string;
  role : option string
}.

(** What the hooks read and write of the request. *)
Record Request := {
  authorization : option string;
  user : option User
}.

Record Body := {
  error : string;
  message : string
}.

Record Reply := {
  statusCode : Z;
  payload : option Body;
  sent : bool
}.

(** [reply.status(code).send(body)] *)
Definition respond (code : Z) (b : Body) (r : Reply) : Reply :=
  {| statusCode := code; payload := Some b; sent := true |}.

(** [authHeaderSchema.safeParse(request.headers)]: the [authorization]
    header of a successful parse. *)
Definition parseHeaders (req : Request) : option string :=
  match authorization req with
  | Some a => if String.prefix "Bearer " a then Some a else None
  | None => None
  end.

Definition demoUser : User :=
  {| id := "demo-user-id"; email := Some "demo@example.com"; role := Some "user" |}.

(** [authMiddleware]; nothing in its [try] block throws, the [catch] branch
    is left out. *)
Definition authMiddleware (req : Request) (rep : Reply) : Request * Reply :=
  match parseHeaders req with
  | None =>
      (req, respond 401 {| error := "Missing or invalid Authorization header";
                           message := "Please provide a valid Bearer token" |} rep)
  | Some a =>
      let token := replaceFirst "Bearer " "" a in
      if String.eqb token "demo-token" then
        ({| authorization := authorization req; user := Some demoUser |}, rep)
      else
        (req, respond 401 {| error := "Invalid token";
                             message := "The provided token is invalid or expired" |} rep)
  end.

(** [adminAuthMiddleware] *)
Definition adminAuthMiddleware (req : Request) (rep : Reply) : Request * Reply :=
  let '(req1, rep1) := authMiddleware req rep in
  if sent rep1 then (req1, rep1)
  else if match user req1 with
          | Some u => negb (bool_decide (role u = Some "admin"))
          | None => true
          end then
    (req1, respond 403 {| error := "Insufficient permissions";
                          message := "Admin role required for this operation" |} rep1)
  else (req1, rep1).

End Auth.

(** ** CORS ([middleware/cors.ts]) *)

Module Cors.

Record Request := {
  method : string;
  origin : option string
}.

Definition allowedOrigins : list string :=
  ["http://localhost:3000"; "https://yourdomain.com"].

(** [reply.status(code).send()] *)
Definition sendEmpty (code : Z) (r : FastifyReply) : FastifyReply :=
  {| statusCode := code; headers := headers r; payload := None; sent := true |}.

(** [array.join(', ')] *)
Fixpoint join (l : list string) : string :=
  match l with
  | [] => ""
  | [s] => s
  | s :: rest => s +:+ ", " +:+ join rest
  end.

(** [corsMiddleware]; [development] is [process.env.NODE_ENV === 'development']. *)
Definition corsMiddleware (development : bool) (req : Request) (rep : FastifyReply)
    : FastifyReply :=
  let rep1 :=
    if development then header "Access-Control-Allow-Origin" (HStr "*") rep
    else match origin req with
         | Some o =>
             if negb (String.eqb o "") && includes allowedOrigins o
             then header "Access-Control-Allow-Origin" (HStr o) rep
             else rep
         | None => rep
         end in
  let rep2 := header "Access-Control-Allow-Credentials" (HStr "true") rep1 in
  let rep3 := header "Access-Control-Allow-Methods"
                (HStr (join ["GET"; "POST"; "PUT"; "PATCH"; "DELETE"; "OPTIONS"])) rep2 in
  let rep4 := header "Access-Control-Allow-Headers"
                (HStr (join ["Content-Type"; "Authorization"; "X-Requested-With"])) rep3 in
  let rep5 := header "Access-Control-Expose-Headers" (HStr (join ["X-Total-Count"])) rep4 in
  let rep6 := header "Access-Control-Max-Age" (HStr (toString 86400)) rep5 in
  if String.eqb (method req) "OPTIONS" then sendEmpty 204 rep6 else rep6.

End Cors.

(** ** Pagination ([todos/service.ts]) *)

Module Todos.

Record PaginationInfo := {
  page : Z;
  limit : Z;
  total : Z;
  totalPages : Z;
  hasNext : bool;
  hasPrev : bool
}.

(** [TodoService.generatePaginationInfo] *)
Definition generatePaginationInfo (page limit total : Z) : PaginationInfo :=
  let totalPages := ceilDiv total limit in
  {| page := page; limit := limit; total := total; totalPages := totalPages;
     hasNext := page <? totalPages; hasPrev := 1 <? page |}.

(** The offset [getAllTodos] passes to the query. *)
Definition offset (page limit : Z) : Z := (page - 1) * limit.

End Todos.

(** ** The error handler ([middleware/logger.ts]) *)

Module Logger.

Record Error := {
  name : string;
  message : string;
  stack : option string
}.

(** [errorLoggerMiddleware], the reply it sends (the log entry is left out). *)
Definition errorLoggerMiddleware (e : Error) (rep : Auth.Reply) : Auth.Reply :=
  if String.eqb (name e) "ValidationError" then
    Auth.respond 400 {| Auth.error := "Validation failed"; Auth.message := message e |} rep
  else if String.eqb (name e) "UnauthorizedError" then
    Auth.respond 401 {| Auth.error := "Unauthorized";
                        Auth.message := "Authentication required" |} rep
  else
    Auth.respond 500 {| Auth.error := "Internal Server Error";
                        Auth.message := "An unexpected error occurred" |} rep.

End Logger.

(** ** The spec's counter, for comparison *)

(** The [increment] of the counter store as section 4.2 of the spec words
    it (the code has no such operation): it returns [(totalHits,
    msUntilReset)]; a record is absent once [now > windowEnd]. *)
Definition incrementPerSpec (windowDurationMs : Z) (key : string) (now : Z)
    (store : gmap string RateLimitData) : gmap string RateLimitData * (Z * Z) :=
  let created :=
    (<[key := {| count := 1; resetTime := now + windowDurationMs |}]> store,
     (1, windowDurationMs)) in
  match store !! key with
  | Some d =>
      if resetTime d <? now then created
      else (<[key := {| count := count d + 1; resetTime := resetTime d |}]> store,
            (count d + 1, resetTime d - now))
  | None => created
  end.

(** * Properties *)

(** ** Basic facts about the store *)

Lemma liveData_Some h now r d :
  liveData h now r = Some d ↔ h !! r = Some d ∧ now < resetTime d.
Proof.
  unfold liveData, expired. destruct (h !! r) as [d'|].
  - destruct (Z.leb_spec (resetTime d') now); split.
    + discriminate.
    + intros [[= ->] ?]. lia.
    + by intros [= ->].
    + by intros [[= ->] ?].
  - split; [discriminate | by intros [? _]].
Qed.

Lemma record_Some w key d :
  record w key = Some d ↔ ∃ r, rateLimitStore w !! key = Some r ∧ heap w !! r = Some d.
Proof.
  unfold record. destruct (rateLimitStore w !! key) as [r|]; simpl; split.
  - intros H. by exists r.
  - by intros (r' & [= <-] & H).
  - discriminate.
  - by intros (r' & [=] & _).
Qed.

Lemma lookupLive_Some w now key r d :
  lookupLive w now key = Some (r, d) ↔
  rateLimitStore w !! key = Some r ∧ heap w !! r = Some d ∧ now < resetTime d.
Proof.
  unfold lookupLive. rewrite <- liveData_Some.
  destruct (rateLimitStore w !! key) as [r'|]; simpl.
  - split.
    + destruct (liveData (heap w) now r') as [d'|] eqn:E; simpl; [|discriminate].
      by intros [= -> ->].
    + intros [[= ->] E]. by rewrite E.
  - split; [discriminate | by intros [[=] _]].
Qed.

Lemma heap_sweep now w : heap (sweep now w) = heap w.
Proof. reflexivity. Qed.

(** An entry survives the sweep exactly when its object has not expired. *)
Lemma sweep_lookup now w key :
  rateLimitStore (sweep now w) !! key =
  rateLimitStore w !! key ≫= λ r, liveData (heap w) now r ≫= λ _, Some r.
Proof.
  unfold sweep; simpl. rewrite map_lookup_filter.
  destruct (rateLimitStore w !! key) as [r|]; simpl; [|done].
  by destruct (liveData (heap w) now r) as [d|].
Qed.

Lemma lookupLive_sweep now w key :
  lookupLive (sweep now w) now key = lookupLive w now key.
Proof.
  unfold lookupLive. rewrite sweep_lookup, heap_sweep.
  destruct (rateLimitStore w !! key) as [r|]; simpl; [|done].
  destruct (liveData (heap w) now r) as [d|] eqn:E; simpl; [|done].
  by rewrite E.
Qed.

Lemma observe_live p key now w r d :
  lookupLive w now key = Some (r, d) →
  observe p key now w = (sweep now w, r, d).
Proof.
  intros H. unfold observe, getOrCreate. by rewrite lookupLive_sweep, H.
Qed.

Lemma observe_fresh p key now w :
  lookupLive w now key = None →
  observe p key now w =
  ({| heap := heap w ++ [{| count := 0; resetTime := now + windowMs p |}];
      rateLimitStore := <[key := length (heap w)]> (rateLimitStore (sweep now w)) |},
   length (heap w), {| count := 0; resetTime := now + windowMs p |}).
Proof.
  intros H. unfold observe, getOrCreate. by rewrite lookupLive_sweep, H.
Qed.

(** The object the middleware reads is the one the map holds afterwards. *)
Lemma observe_record p key now w w1 r d :
  observe p key now w = (w1, r, d) →
  rateLimitStore w1 !! key = Some r ∧ heap w1 !! r = Some d ∧ now < resetTime d
  ∨ (lookupLive w now key = None ∧ rateLimitStore w1 !! key = Some r
     ∧ heap w1 !! r = Some d ∧ d = {| count := 0; resetTime := now + windowMs p |}).
Proof.
  destruct (lookupLive w now key) as [[r' d']|] eqn:E.
  - rewrite (observe_live _ _ _ _ _ _ E). intros [= <- <- <-]. left.
    rewrite <- lookupLive_sweep in E. by apply lookupLive_Some in E.
  - rewrite (observe_fresh _ _ _ _ E). intros [= <- <- <-]. right. simpl.
    rewrite lookup_insert_eq. split_and!; try done.
    rewrite lookup_app_r by lia. by rewrite Nat.sub_diag.
Qed.

(** ** The two branches of the middleware *)

Lemma middleware_reject p request now w rep w1 r d :
  observe p (keyGenerator p request) now w = (w1, r, d) →
  max p ≤ count d →
  rateLimitMiddleware p request now w rep =
  {| world := w1;
     reply := send {| error := "Too Many Requests"; message := policyMessage p;
                      retryAfter := ceilDiv (resetTime d - now) 1000 |}
                (status 429
                   (header "Retry-After" (HStr (toString (ceilDiv (resetTime d - now) 1000)))
                      (oldHeaders p "0" d (stdHeaders p "0" d rep))));
     listener := None |}.
Proof.
  intros E Hc. unfold rateLimitMiddleware. rewrite E.
  destruct (Z.leb_spec (max p) (count d)); [done | lia].
Qed.

Lemma middleware_admit p request now w rep w1 r d :
  observe p (keyGenerator p request) now w = (w1, r, d) →
  count d < max p →
  rateLimitMiddleware p request now w rep =
  {| world := w1;
     reply := oldHeaders p (toString (max p - count d - 1)) d
                (stdHeaders p (toString (max p - count d - 1)) d rep);
     listener := Some {| l_policy := p; l_key := keyGenerator p request; l_data := r |} |}.
Proof.
  intros E Hc. unfold rateLimitMiddleware. rewrite E.
  destruct (Z.leb_spec (max p) (count d)); [lia | done].
Qed.

Lemma sent_stdHeaders p s d rep : sent (stdHeaders p s d rep) = sent rep.
Proof. unfold stdHeaders. by destruct (standardHeaders p). Qed.

Lemma sent_oldHeaders p s d rep : sent (oldHeaders p s d rep) = sent rep.
Proof. unfold oldHeaders. by destruct (legacyHeaders p). Qed.

(** The legacy headers have other names: they leave the standard ones alone. *)
Lemma std_after_old p s s' d rep :
  standardHeaders p = true →
  headers (oldHeaders p s' d (stdHeaders p s d rep)) !! "RateLimit-Limit"
    = Some (HStr (toString (max p)))
  ∧ headers (oldHeaders p s' d (stdHeaders p s d rep)) !! "RateLimit-Remaining"
    = Some (HStr s)
  ∧ headers (oldHeaders p s' d (stdHeaders p s d rep)) !! "RateLimit-Reset"
    = Some (HIsoDate (resetTime d)).
Proof.
  intros Hs. unfold oldHeaders, stdHeaders. rewrite Hs.
  destruct (legacyHeaders p); simpl; by simplify_map_eq.
Qed.

(** An admitted request leaves the reply open, a rejected one closes it. *)
Lemma middleware_sent p request now w rep :
  sent rep = false →
  sent (reply (rateLimitMiddleware p request now w rep)) = true
  ↔ listener (rateLimitMiddleware p request now w rep) = None.
Proof.
  intros Hrep.
  destruct (observe p (keyGenerator p request) now w) as [[w1 r] d] eqn:E.
  destruct (Z.le_gt_cases (max p) (count d)) as [Hc|Hc].
  - by rewrite (middleware_reject _ _ _ _ _ _ _ _ E Hc).
  - rewrite (middleware_admit _ _ _ _ _ _ _ _ E) by lia. simpl.
    rewrite sent_oldHeaders, sent_stdHeaders, Hrep. split; discriminate.
Qed.

Example scenario1 :
  let '(w, reps) := serveAll scenarioPolicy client [(0, 200); (1000, 200); (2000, 200)] emptyWorld in
  (remainingOf <$> reps) = [Some (HStr "2"); Some (HStr "1"); Some (HStr "0")]
  ∧ (sent <$> reps) = [false; false; false]
  ∧ let rep4 := (serve scenarioPolicy client 3000 200 w).2 in
    statusCode rep4 = 429 ∧ headers rep4 !! "Retry-After" = Some (HStr "57").
Proof. vm_compute. repeat split. Qed.


(** ** Response headers and the rejection response *)

Lemma toString_zero : toString 0 = "0".
Proof. reflexivity. Qed.

(** The three standard headers of any reply of the middleware, in terms of
    the record the key has afterwards. *)
Lemma headers_of_reply p request now w rep :
  standardHeaders p = true →
  let res := rateLimitMiddleware p request now w rep in
  ∃ d, record (world res) (keyGenerator p request) = Some d
     ∧ headers (reply res) !! "RateLimit-Limit" = Some (HStr (toString (max p)))
     ∧ headers (reply res) !! "RateLimit-Remaining"
         = Some (HStr (toString (Z.max 0 (max p - (count d + 1)))))
     ∧ headers (reply res) !! "RateLimit-Reset" = Some (HIsoDate (resetTime d)).
Proof.
  intros Hs res. subst res.
  destruct (observe p (keyGenerator p request) now w) as [[w1 r] d] eqn:E.
  assert (record w1 (keyGenerator p request) = Some d) as Hrec.
  { apply record_Some. exists r.
    destruct (observe_record _ _ _ _ _ _ _ E) as [(? & ? & _)|(_ & ? & ? & _)]; done. }
  exists d.
  destruct (Z.le_gt_cases (max p) (count d)) as [Hc|Hc].
  - rewrite (middleware_reject _ _ _ _ _ _ _ _ E Hc). simpl.
    destruct (std_after_old p "0" "0" d rep Hs) as (H1 & H2 & H3).
    rewrite !lookup_insert_ne by done.
    replace (Z.max 0 (max p - (count d + 1))) with 0 by lia.
    by rewrite toString_zero.
  - rewrite (middleware_admit _ _ _ _ _ _ _ _ E Hc). simpl.
    replace (Z.max 0 (max p - (count d + 1))) with (max p - count d - 1) by lia.
    split; [done|]. by apply std_after_old.
Qed.

(** Stages that do not send the reply hand over to the stages after them. *)
Lemma runHooks_app before rest request now w rep :
  sent (lc_reply (runHooks before request now w rep)) = false →
  let lcb := runHooks before request now w rep in
  let lcr := runHooks rest request now (lc_world lcb) (lc_reply lcb) in
  runHooks (before ++ rest) request now w rep =
  {| lc_world := lc_world lcr; lc_reply := lc_reply lcr;
     lc_listeners := lc_listeners lcb ++ lc_listeners lcr;
     lc_ran := lc_ran lcb ++ lc_ran lcr |}.
Proof.
  revert w rep. induction before as [|[name h] before IH]; intros w rep; simpl.
  - intros _. by destruct (runHooks rest request now w rep).
  - destruct (sent (reply (h request now w rep))) eqn:Hs; simpl; [congruence|].
    intros Hb. rewrite (IH _ _ Hb). simpl. by rewrite app_assoc.
Qed.

(** C3: whenever the stage rejects, the reply has status 429, a
    [Retry-After] header of [ceil(msUntilReset / 1000)] seconds, where
    [msUntilReset] is the record's [resetTime - now], and exactly the body
    with [error], the policy's [message] and the same seconds as
    [retryAfter]; no later stage and no route handler runs. *)
Theorem rejection_is_terminal p request now w0 before rest handler :
  let lcb := runHooks before request now w0 freshReply in
  let res := rateLimitMiddleware p request now (lc_world lcb) (lc_reply lcb) in
  let lc := handleRequest (before ++ ("rateLimit", rateLimitMiddleware p) :: rest)
              handler request now w0 in
  sent (lc_reply lcb) = false →
  sent (reply res) = true →
  ∃ d, record (world res) (keyGenerator p request) = Some d
     ∧ max p ≤ count d
     ∧ statusCode (reply res) = 429
     ∧ headers (reply res) !! "Retry-After"
         = Some (HStr (toString (ceilDiv (resetTime d - now) 1000)))
     ∧ payload (reply res)
         = Some {| error := "Too Many Requests"; message := policyMessage p;
                   retryAfter := ceilDiv (resetTime d - now) 1000 |}
     ∧ lc_reply lc = reply res
     ∧ lc_ran lc = lc_ran lcb ++ ["rateLimit"].
Proof.
  intros lcb res lc Hopen Hsent. subst lc. unfold handleRequest.
  rewrite (runHooks_app _ _ _ _ _ _ Hopen). fold lcb. simpl. fold res.
  rewrite Hsent. simpl. rewrite Hsent.
  subst res.
  destruct (observe p (keyGenerator p request) now (lc_world lcb)) as [[w1 r] d] eqn:E.
  assert (record w1 (keyGenerator p request) = Some d) as Hrec.
  { apply record_Some. exists r.
    destruct (observe_record _ _ _ _ _ _ _ E) as [(? & ? & _)|(_ & ? & ? & _)]; done. }
  destruct (Z.le_gt_cases (max p) (count d)) as [Hc|Hc].
  - rewrite (middleware_reject _ _ _ _ _ _ _ _ E Hc) in *. simpl.
    exists d. split_and!; try done. by rewrite lookup_insert_eq.
  - rewrite (middleware_admit _ _ _ _ _ _ _ _ E Hc) in Hsent. simpl in Hsent.
    rewrite sent_oldHeaders, sent_stdHeaders in Hsent. congruence.
Qed.

Lemma rejection_is_terminal_witness :
  ∃ d, record (world (rateLimitMiddleware scenarioPolicy client 3000 afterThree freshReply))
         "1.2.3.4" = Some d
     ∧ 3 ≤ count d
     ∧ statusCode (reply (rateLimitMiddleware scenarioPolicy client 3000 afterThree freshReply))
         = 429.
Proof.
  destruct (rejection_is_terminal scenarioPolicy client 3000 afterThree [] []
              (λ _ rep, rep)) as (d & H1 & H2 & H3 & _).
  - reflexivity.
  - vm_compute. reflexivity.
  - exists d. split_and!; [exact H1 | exact H2 | exact H3].
Defined.

(** ** Sequential requests in one window *)

Lemma serve_admit p request now code w w1 r d :
  observe p (keyGenerator p request) now w = (w1, r, d) →
  count d < max p →
  serve p request now code w =
  (onFinish {| l_policy := p; l_key := keyGenerator p request; l_data := r |} code w1,
   status code (oldHeaders p (toString (max p - count d - 1)) d
                  (stdHeaders p (toString (max p - count d - 1)) d freshReply))).
Proof.
  intros E Hc. unfold serve. by rewrite (middleware_admit _ _ _ _ _ _ _ _ E Hc).
Qed.

Lemma serve_reject p request now code w w1 r d :
  observe p (keyGenerator p request) now w = (w1, r, d) →
  max p ≤ count d →
  serve p request now code w =
  (w1, send {| error := "Too Many Requests"; message := policyMessage p;
               retryAfter := ceilDiv (resetTime d - now) 1000 |}
         (status 429
            (header "Retry-After" (HStr (toString (ceilDiv (resetTime d - now) 1000)))
               (oldHeaders p "0" d (stdHeaders p "0" d freshReply))))).
Proof.
  intros E Hc. unfold serve. by rewrite (middleware_reject _ _ _ _ _ _ _ _ E Hc).
Qed.

(** The listener of a counted request adds one to the object it kept and
    puts that object (back) under the key. *)
Lemma onFinish_counted p key r code w d :
  shouldCount p code = true →
  heap w !! r = Some d →
  rateLimitStore (onFinish {| l_policy := p; l_key := key; l_data := r |} code w) !! key
    = Some r
  ∧ heap (onFinish {| l_policy := p; l_key := key; l_data := r |} code w) !! r
    = Some {| count := count d + 1; resetTime := resetTime d |}.
Proof.
  intros Hc Hd. unfold onFinish. simpl. rewrite Hc, Hd. simpl.
  rewrite lookup_insert_eq. split; [done|].
  apply list_lookup_insert_eq. by eapply lookup_lt_Some.
Qed.

Lemma onFinish_exempt l code w :
  shouldCount (l_policy l) code = false → onFinish l code w = w.
Proof. intros H. unfold onFinish. by rewrite H. Qed.

Lemma remainingOf_admitted p code s d :
  standardHeaders p = true →
  remainingOf (status code (oldHeaders p s d (stdHeaders p s d freshReply))) = Some (HStr s).
Proof.
  intros Hs. unfold remainingOf. simpl.
  by destruct (std_after_old p s s d freshReply Hs) as (_ & ? & _).
Qed.

(** One counted request against a live record below the limit. *)
Lemma serve_counted_live p request now code w r c R :
  rateLimitStore w !! keyGenerator p request = Some r →
  heap w !! r = Some {| count := c; resetTime := R |} →
  now < R → c < max p → shouldCount p code = true →
  ∃ w' rep, serve p request now code w = (w', rep)
    ∧ rateLimitStore w' !! keyGenerator p request = Some r
    ∧ heap w' !! r = Some {| count := c + 1; resetTime := R |}
    ∧ sent rep = false
    ∧ (standardHeaders p = true → remainingOf rep = Some (HStr (toString (max p - c - 1)))).
Proof.
  intros Hk Hr Hnow Hc Hcount.
  assert (lookupLive w now (keyGenerator p request)
          = Some (r, {| count := c; resetTime := R |})) as HL.
  { by apply lookupLive_Some. }
  rewrite (serve_admit _ _ _ _ _ _ _ _ (observe_live p _ _ _ _ _ HL)) by done.
  eexists _, _. split; [reflexivity|].
  destruct (onFinish_counted p (keyGenerator p request) r code (sweep now w)
              {| count := c; resetTime := R |} Hcount Hr) as [H1 H2].
  split_and!; try done.
  - simpl. by rewrite sent_oldHeaders, sent_stdHeaders.
  - intros Hs. by apply remainingOf_admitted.
Qed.

(** One counted request for a key without a live record. *)
Lemma serve_counted_fresh p request now code w :
  lookupLive w now (keyGenerator p request) = None →
  0 < max p → shouldCount p code = true →
  ∃ w' rep r, serve p request now code w = (w', rep)
    ∧ rateLimitStore w' !! keyGenerator p request = Some r
    ∧ heap w' !! r = Some {| count := 1; resetTime := now + windowMs p |}
    ∧ sent rep = false
    ∧ (standardHeaders p = true → remainingOf rep = Some (HStr (toString (max p - 1)))).
Proof.
  intros HL Hmax Hcount.
  rewrite (serve_admit _ _ _ _ _ _ _ _ (observe_fresh p _ _ _ HL)) by (simpl; lia).
  eexists _, _, _. split; [reflexivity|].
  match goal with |- context [onFinish ?l code ?w1] =>
    destruct (onFinish_counted p (keyGenerator p request) (length (heap w)) code w1
                {| count := 0; resetTime := now + windowMs p |} Hcount) as [H1 H2]
  end.
  { simpl. rewrite lookup_app_r by lia. by rewrite Nat.sub_diag. }
  split_and!; try done.
  - simpl. by rewrite sent_oldHeaders, sent_stdHeaders.
  - intros Hs. simpl count. replace (max p - 0 - 1) with (max p - 1) by lia.
    by apply remainingOf_admitted.
Qed.

Lemma ceilDiv_mono a b : a ≤ b → ceilDiv a 1000 ≤ ceilDiv b 1000.
Proof.
  intros H. unfold ceilDiv.
  assert ((- b) / 1000 ≤ (- a) / 1000) by (apply Z.div_le_mono; lia). lia.
Qed.

(** Counted requests against a live record: each finds the count left by the
    one before it. *)
Lemma serveAll_counting p request reqs :
  ∀ w r c R,
  rateLimitStore w !! keyGenerator p request = Some r →
  heap w !! r = Some {| count := c; resetTime := R |} →
  Forall (λ nc : Z * Z, nc.1 < R ∧ shouldCount p nc.2 = true) reqs →
  c + Z.of_nat (length reqs) ≤ max p →
  ∃ w' reps, serveAll p request reqs w = (w', reps)
    ∧ rateLimitStore w' !! keyGenerator p request = Some r
    ∧ heap w' !! r = Some {| count := c + Z.of_nat (length reqs); resetTime := R |}
    ∧ ∀ (i : nat) rep, reps !! i = Some rep →
        sent rep = false
        ∧ (standardHeaders p = true →
           remainingOf rep = Some (HStr (toString (max p - c - Z.of_nat (S i))))).
Proof.
  induction reqs as [|[now code] reqs IH]; intros w r c R Hk Hr Hall Hlen.
  - exists w, []. simpl. rewrite Z.add_0_r. split_and!; try done.
  - apply Forall_cons in Hall as [[Hnow Hcount] Hall]. simpl in Hnow, Hcount.
    simpl length in Hlen.
    destruct (serve_counted_live p request now code w r c R) as
      (w1 & rep & Hserve & Hk1 & Hr1 & Hsent & Hrem); try done; [lia|].
    destruct (IH w1 r (c + 1) R Hk1 Hr1 Hall) as (w2 & reps & Hrest & Hk2 & Hr2 & Hreps);
      [lia|].
    exists w2, (rep :: reps). simpl. rewrite Hserve, Hrest.
    split_and!; try done.
    + rewrite Hr2. do 2 f_equal. lia.
    + intros [|i] rep' Hi; simpl in Hi.
      * injection Hi as <-. split; [done|]. intros Hs. rewrite (Hrem Hs).
        do 3 f_equal.
      * destruct (Hreps i rep' Hi) as [? Hrem']. split; [done|].
        intros Hs. rewrite (Hrem' Hs). do 3 f_equal. lia.
Qed.

(** C1: for a key without a live record and a policy with limit [m] whose
    requests are all counted, [m] requests served one after the other within
    the window opened by the first are all admitted, the [i]-th with
    [RateLimit-Remaining = m - i], and the next request in the same window
    gets 429 with [Retry-After] at most [ceil(windowMs / 1000)]. *)
Theorem quota_exhausted_after_max p request reqs t' code' w :
  let key := keyGenerator p request in
  let t0 := hd t' reqs.*1 in
  standardHeaders p = true →
  lookupLive w t0 key = None →
  Z.of_nat (length reqs) = max p →
  Forall (λ nc : Z * Z, t0 ≤ nc.1 < t0 + windowMs p ∧ shouldCount p nc.2 = true) reqs →
  t0 ≤ t' < t0 + windowMs p →
  ∃ w' reps, serveAll p request reqs w = (w', reps)
    ∧ (∀ (i : nat) rep, reps !! i = Some rep →
         sent rep = false
         ∧ remainingOf rep = Some (HStr (toString (max p - Z.of_nat (S i)))))
    ∧ ∃ seconds,
        statusCode (serve p request t' code' w').2 = 429
        ∧ sent (serve p request t' code' w').2 = true
        ∧ headers (serve p request t' code' w').2 !! "Retry-After"
            = Some (HStr (toString seconds))
        ∧ seconds ≤ ceilDiv (windowMs p) 1000.
Proof.
  intros key t0 Hs Hfresh Hlen Hall Ht'.
  destruct reqs as [|[t1 c1] reqs].
  - (* limit 0: the first request is already over the limit *)
    simpl in *. subst t0. exists w, []. split_and!; try done.
    rewrite (serve_reject _ _ _ _ _ _ _ _ (observe_fresh p _ _ _ Hfresh)) by (simpl; lia).
    simpl. exists (ceilDiv (t' + windowMs p - t') 1000). split_and!; try done.
    + by rewrite lookup_insert_eq.
    + apply ceilDiv_mono. lia.
  - simpl in t0. subst t0. apply Forall_cons in Hall as [[Ht1 Hc1] Hall].
    simpl in Ht1, Hc1. simpl length in Hlen.
    destruct (serve_counted_fresh p request t1 c1 w Hfresh) as
      (w1 & rep1 & r & Hserve & Hk1 & Hr1 & Hsent1 & Hrem1); [lia | done |].
    destruct (serveAll_counting p request reqs w1 r 1 (t1 + windowMs p) Hk1 Hr1)
      as (w2 & reps & Hrest & Hk2 & Hr2 & Hreps); [|lia|].
    { eapply Forall_impl; [exact Hall|]. intros [n c] [? ?]; simpl in *. split; [lia|done]. }
    exists w2, (rep1 :: reps). simpl. rewrite Hserve, Hrest.
    split_and!; try done.
    + intros [|i] rep' Hi; simpl in Hi.
      * injection Hi as <-. split; [done|]. rewrite (Hrem1 Hs). do 3 f_equal.
      * destruct (Hreps i rep' Hi) as [? Hrem']. split; [done|].
        rewrite (Hrem' Hs). do 3 f_equal. lia.
    + assert (lookupLive w2 t' (keyGenerator p request)
              = Some (r, {| count := 1 + Z.of_nat (length reqs);
                            resetTime := t1 + windowMs p |})) as HL.
      { apply lookupLive_Some. simpl. split_and!; [done | done | lia]. }
      rewrite (serve_reject _ _ _ _ _ _ _ _ (observe_live p _ _ _ _ _ HL)) by (simpl; lia).
      simpl. exists (ceilDiv (t1 + windowMs p - t') 1000). split_and!; try done.
      * by rewrite lookup_insert_eq.
      * apply ceilDiv_mono. lia.
Qed.

Lemma quota_exhausted_after_max_witness :
  ∃ w' reps,
    serveAll scenarioPolicy client [(0, 200); (1000, 200); (2000, 200)] emptyWorld = (w', reps)
    ∧ (∀ (i : nat) rep, reps !! i = Some rep →
         sent rep = false
         ∧ remainingOf rep = Some (HStr (toString (3 - Z.of_nat (S i)))))
    ∧ ∃ seconds,
        statusCode (serve scenarioPolicy client 3000 200 w').2 = 429
        ∧ sent (serve scenarioPolicy client 3000 200 w').2 = true
        ∧ headers (serve scenarioPolicy client 3000 200 w').2 !! "Retry-After"
            = Some (HStr (toString seconds))
        ∧ seconds ≤ 60.
Proof.
  apply (quota_exhausted_after_max scenarioPolicy client
           [(0, 200); (1000, 200); (2000, 200)] 3000 200 emptyWorld).
  - reflexivity.
  - reflexivity.
  - reflexivity.
  - repeat constructor; simpl; lia.
  - simpl. lia.
Defined.

(** ** Expired windows *)

Lemma sweep_forget now w key d :
  record w key = Some d → resetTime d ≤ now →
  sweep now (forget key w) = sweep now w.
Proof.
  intros Hrec Hexp. apply record_Some in Hrec as (r & Hk & Hr).
  unfold sweep, forget. simpl. f_equal.
  rewrite map_filter_delete. apply delete_id.
  apply map_lookup_filter_None. right. intros r' Hk' [d' Hd']. simpl in Hd'.
  apply liveData_Some in Hd' as [Hd' ?]. simplify_eq. lia.
Qed.

Lemma lookupLive_expired w now key d :
  record w key = Some d → resetTime d ≤ now → lookupLive w now key = None.
Proof.
  intros Hrec Hexp. apply record_Some in Hrec as (r & Hk & Hr).
  destruct (lookupLive w now key) as [[r' d']|] eqn:E; [|done].
  apply lookupLive_Some in E as (? & ? & ?). simplify_eq. lia.
Qed.

Lemma lookupLive_forget w now key : lookupLive (forget key w) now key = None.
Proof. unfold lookupLive, forget. simpl. by rewrite lookup_delete_eq. Qed.

(** C5: once the window of a key's record has fully elapsed
    ([now > windowEnd]), the middleware answers the next request for the key
    exactly as it answers in a world without the record, whatever the count
    was; with a limit of at least one the request is admitted, with
    [RateLimit-Remaining = max - 1], on a new record with count 0. *)
Theorem elapsed_window_is_forgotten p request now w rep d :
  let key := keyGenerator p request in
  let res := rateLimitMiddleware p request now w rep in
  record w key = Some d →
  resetTime d < now →
  res = rateLimitMiddleware p request now (forget key w) rep
  ∧ (0 < max p →
       is_Some (listener res)
       ∧ sent (reply res) = sent rep
       ∧ record (world res) key = Some {| count := 0; resetTime := now + windowMs p |}
       ∧ (standardHeaders p = true →
          headers (reply res) !! "RateLimit-Remaining" = Some (HStr (toString (max p - 1))))).
Proof.
  intros key res Hrec Hexp. subst res.
  assert (lookupLive w now key = None) as HL by (eapply lookupLive_expired; [done|lia]).
  pose proof (observe_fresh p key now w HL) as E.
  split.
  - unfold rateLimitMiddleware. fold key. rewrite E.
    rewrite (observe_fresh p key now (forget key w) (lookupLive_forget _ _ _)).
    rewrite (sweep_forget now w key d Hrec) by lia. done.
  - intros Hmax. rewrite (middleware_admit _ _ _ _ _ _ _ _ E) by (simpl; lia). simpl.
    split_and!.
    + by eexists.
    + by rewrite sent_oldHeaders, sent_stdHeaders.
    + apply record_Some. exists (length (heap w)). simpl. rewrite lookup_insert_eq.
      split; [done|]. rewrite lookup_app_r by lia. by rewrite Nat.sub_diag.
    + intros Hs. replace (max p - 0 - 1) with (max p - 1) by lia.
      by destruct (std_after_old p (toString (max p - 1)) (toString (max p - 1))
                     {| count := 0; resetTime := now + windowMs p |} rep Hs) as (_ & ? & _).
Qed.

(** Scenario 2: three requests, a wait of 61 seconds, then request 4. *)
Lemma elapsed_window_is_forgotten_witness :
  record afterThree "1.2.3.4" = Some {| count := 3; resetTime := 60000 |}
  ∧ is_Some (listener (rateLimitMiddleware scenarioPolicy client 63000 afterThree freshReply))
  ∧ headers (reply (rateLimitMiddleware scenarioPolicy client 63000 afterThree freshReply))
      !! "RateLimit-Remaining" = Some (HStr "2").
Proof.
  assert (record afterThree "1.2.3.4" = Some {| count := 3; resetTime := 60000 |}) as Hrec
    by (vm_compute; reflexivity).
  split; [exact Hrec|].
  destruct (elapsed_window_is_forgotten scenarioPolicy client 63000 afterThree freshReply
              {| count := 3; resetTime := 60000 |}) as [_ H].
  - exact Hrec.
  - simpl. lia.
  - destruct H as (H1 & _ & _ & H2); [simpl; lia|].
    split; [exact H1 | exact (H2 eq_refl)].
Defined.

(** ** Skip flags *)

Lemma shouldCount_exempt p code : exempt p code → shouldCount p code = false.
Proof.
  unfold exempt, shouldCount. intros [[-> H]|[-> H]].
  - destruct (skipSuccessfulRequests p && (200 <=? code) && (code <? 300)); [done|].
    simpl. by destruct (Z.leb_spec 400 code); [|lia].
  - simpl. destruct (Z.leb_spec 200 code); [|lia].
    by destruct (Z.ltb_spec code 300); [|lia].
Qed.

(** A request whose final status is exempt is admitted on an unused record
    and leaves it unused. *)
Lemma serve_exempt p request now code w :
  0 < max p →
  (∀ d, record w (keyGenerator p request) = Some d → count d = 0) →
  shouldCount p code = false →
  ∃ w' rep, serve p request now code w = (w', rep)
    ∧ sent rep = false
    ∧ (standardHeaders p = true → remainingOf rep = Some (HStr (toString (max p - 1))))
    ∧ ∀ d, record w' (keyGenerator p request) = Some d → count d = 0.
Proof.
  intros Hmax Hinv Hex.
  destruct (observe p (keyGenerator p request) now w) as [[w1 r] d] eqn:E.
  assert (count d = 0 ∧ record w1 (keyGenerator p request) = Some d) as [Hd Hrec].
  { destruct (lookupLive w now (keyGenerator p request)) as [[r' d']|] eqn:HL.
    - rewrite (observe_live _ _ _ _ _ _ HL) in E. injection E as <- <- <-.
      pose proof HL as HL'. apply lookupLive_Some in HL' as (Hk & Hr & _).
      split; [apply Hinv, record_Some; eauto|].
      rewrite <- lookupLive_sweep in HL. apply lookupLive_Some in HL as (? & ? & _).
      apply record_Some; eauto.
    - rewrite (observe_fresh _ _ _ _ HL) in E. injection E as <- <- <-.
      split; [done|]. apply record_Some. exists (length (heap w)). simpl.
      rewrite lookup_insert_eq. split; [done|].
      rewrite lookup_app_r by lia. by rewrite Nat.sub_diag. }
  rewrite (serve_admit _ _ _ _ _ _ _ _ E) by lia.
  rewrite onFinish_exempt by done.
  eexists _, _. split; [reflexivity|]. split_and!.
  - simpl. by rewrite sent_oldHeaders, sent_stdHeaders.
  - intros Hs. rewrite Hd. replace (max p - 0 - 1) with (max p - 1) by lia.
    by apply remainingOf_admitted.
  - intros d' Hd'. congruence.
Qed.

(** Exempt requests on a key whose record, if any, has count 0: each is
    admitted, and so is the request after them. *)
Lemma exempt_requests_on_unused_key p request reqs now' code' w :
  let key := keyGenerator p request in
  0 < max p →
  (∀ d, record w key = Some d → count d = 0) →
  Forall (λ nc : Z * Z, exempt p nc.2) reqs →
  ∃ w' reps, serveAll p request reqs w = (w', reps)
    ∧ Forall (λ rep, sent rep = false) reps
    ∧ sent (serve p request now' code' w').2 = false
    ∧ (standardHeaders p = true →
       remainingOf (serve p request now' code' w').2 = Some (HStr (toString (max p - 1)))).
Proof.
  intros key Hmax Hinv Hall. subst key.
  revert w Hinv. induction Hall as [|[now code] reqs Hex Hall IH]; intros w Hinv.
  - exists w, []. split; [done|]. split; [constructor|].
    destruct (Z.le_gt_cases (max p) 0); [lia|].
    destruct (observe p (keyGenerator p request) now' w) as [[w1 r] d] eqn:E.
    assert (count d = 0) as Hd.
    { destruct (lookupLive w now' (keyGenerator p request)) as [[r' d']|] eqn:HL.
      - rewrite (observe_live _ _ _ _ _ _ HL) in E. injection E as <- <- <-.
        apply lookupLive_Some in HL as (Hk & Hr & _). apply Hinv, record_Some; eauto.
      - rewrite (observe_fresh _ _ _ _ HL) in E. by injection E as <- <- <-. }
    rewrite (serve_admit _ _ _ _ _ _ _ _ E) by lia. simpl.
    split; [by rewrite sent_oldHeaders, sent_stdHeaders|].
    intros Hs. rewrite Hd. replace (max p - 0 - 1) with (max p - 1) by lia.
    by apply (remainingOf_admitted p code').
  - simpl in Hex.
    destruct (serve_exempt p request now code w Hmax Hinv (shouldCount_exempt _ _ Hex))
      as (w1 & rep & Hserve & Hsent & _ & Hinv1).
    destruct (IH w1 Hinv1) as (w2 & reps' & Hrest & Hsents & Hnext).
    exists w2, (rep :: reps'). simpl. rewrite Hserve, Hrest.
    split; [done|]. split; [by constructor | done].
Qed.

(** ** When the counter moves *)

(** C2, as the spec states it, fails: when the first request of a window is
    handed to the route handler, the key's record has count 0, not 1. *)
Lemma count_at_forwarding_counterexample :
  let res := rateLimitMiddleware scenarioPolicy client 0 emptyWorld freshReply in
  is_Some (listener res)
  ∧ sent (reply res) = false
  ∧ record (world res) "1.2.3.4" = Some {| count := 0; resetTime := 60000 |}
  ∧ ¬ ∃ d, record (world res) "1.2.3.4" = Some d ∧ count d = 1.
Proof.
  assert (record (world (rateLimitMiddleware scenarioPolicy client 0 emptyWorld freshReply))
            "1.2.3.4" = Some {| count := 0; resetTime := 60000 |}) as Hrec
    by (vm_compute; reflexivity).
  intros res. subst res. split_and!.
  - vm_compute. eexists. reflexivity.
  - vm_compute. reflexivity.
  - exact Hrec.
  - intros (d & Hd & H). rewrite Hrec in Hd. injection Hd as <-. discriminate.
Qed.

(** What an admitted request leaves behind: its record, untouched, and a
    listener that will add one to it unless the final status is exempt. *)
Lemma admitted_listener p request now w rep l :
  listener (rateLimitMiddleware p request now w rep) = Some l →
  ∃ r d, l = {| l_policy := p; l_key := keyGenerator p request; l_data := r |}
    ∧ rateLimitStore (world (rateLimitMiddleware p request now w rep))
        !! keyGenerator p request = Some r
    ∧ heap (world (rateLimitMiddleware p request now w rep)) !! r = Some d
    ∧ count d < max p
    ∧ (lookupLive w now (keyGenerator p request) = None → count d = 0).
Proof.
  intros Hl.
  destruct (observe p (keyGenerator p request) now w) as [[w1 r] d] eqn:E.
  destruct (Z.le_gt_cases (max p) (count d)) as [Hc|Hc].
  { by rewrite (middleware_reject _ _ _ _ _ _ _ _ E Hc) in Hl. }
  rewrite (middleware_admit _ _ _ _ _ _ _ _ E) in * by lia. simpl in *.
  injection Hl as <-. exists r, d.
  assert (rateLimitStore w1 !! keyGenerator p request = Some r ∧ heap w1 !! r = Some d)
    as [Hk Hr].
  { destruct (observe_record _ _ _ _ _ _ _ E) as [(? & ? & _)|(_ & ? & ? & _)]; done. }
  split_and!; try done.
  intros HL. rewrite (observe_fresh _ _ _ _ HL) in E. by injection E as <- <- <-.
Qed.

(** C2, amended: an admitted request is handed on with the key's record
    still holding the count the request found (0 on the first request of a
    window, always below the limit); the count goes up by one only when the
    response has finished, and only when no skip flag exempts the final
    status; an exempt request changes nothing, there is no decrement. *)
Theorem count_deferred_to_finish p request now w rep l :
  let key := keyGenerator p request in
  let res := rateLimitMiddleware p request now w rep in
  listener res = Some l →
  ∃ r d, l = {| l_policy := p; l_key := key; l_data := r |}
    ∧ rateLimitStore (world res) !! key = Some r
    ∧ heap (world res) !! r = Some d
    ∧ count d < max p
    ∧ (lookupLive w now key = None → count d = 0)
    ∧ ∀ code,
        (shouldCount p code = true →
           record (onFinish l code (world res)) key
           = Some {| count := count d + 1; resetTime := resetTime d |})
        ∧ (shouldCount p code = false → onFinish l code (world res) = world res).
Proof.
  intros key res Hl. subst res key.
  destruct (admitted_listener p request now w rep l Hl) as (r & d & -> & Hk & Hr & Hc & H0).
  exists r, d. split_and!; try done.
  intros code. split; intros Hcount.
  - destruct (onFinish_counted p (keyGenerator p request) r code _ d Hcount Hr).
    apply record_Some. eauto.
  - by apply onFinish_exempt.
Qed.

Lemma count_deferred_to_finish_witness :
  ∃ r d, rateLimitStore (world (rateLimitMiddleware scenarioPolicy client 0 emptyWorld freshReply))
           !! "1.2.3.4" = Some r
    ∧ heap (world (rateLimitMiddleware scenarioPolicy client 0 emptyWorld freshReply)) !! r
        = Some d
    ∧ count d = 0.
Proof.
  destruct (count_deferred_to_finish scenarioPolicy client 0 emptyWorld freshReply
              {| l_policy := scenarioPolicy; l_key := "1.2.3.4"; l_data := 0%nat |})
    as (r & d & _ & H1 & H2 & _ & H3 & _).
  - reflexivity.
  - exists r, d. split_and!; [exact H1 | exact H2 | exact (H3 eq_refl)].
Defined.

(** The invocation keeps every live record as it is. *)
Lemma middleware_keeps_live p request now w rep k r d :
  lookupLive w now k = Some (r, d) →
  lookupLive (world (rateLimitMiddleware p request now w rep)) now k = Some (r, d).
Proof.
  intros HL.
  destruct (observe p (keyGenerator p request) now w) as [[w1 r1] d1] eqn:E.
  assert (world (rateLimitMiddleware p request now w rep) = w1) as ->.
  { destruct (Z.le_gt_cases (max p) (count d1)) as [Hc|Hc].
    - by rewrite (middleware_reject _ _ _ _ _ _ _ _ E Hc).
    - by rewrite (middleware_admit _ _ _ _ _ _ _ _ E Hc). }
  destruct (lookupLive w now (keyGenerator p request)) as [[r' d']|] eqn:HK.
  - rewrite (observe_live _ _ _ _ _ _ HK) in E. injection E as <- <- <-.
    by rewrite lookupLive_sweep.
  - rewrite (observe_fresh _ _ _ _ HK) in E. injection E as <- <- <-.
    assert (k ≠ keyGenerator p request) as Hne by (intros ->; congruence).
    rewrite <- (lookupLive_sweep now w k) in HL.
    apply lookupLive_Some in HL as (Hk & Hr & Hlive). rewrite heap_sweep in Hr.
    apply lookupLive_Some. simpl. rewrite lookup_insert_ne by done.
    split_and!; try done. rewrite lookup_app_l; [done|]. by eapply lookup_lt_Some.
Qed.

(** C9, as the spec states it, fails: the rejected fourth request of
    scenario 1 leaves the record of its key exactly as it was. *)
Lemma rejected_request_counterexample :
  let res := rateLimitMiddleware scenarioPolicy client 3000 afterThree freshReply in
  statusCode (reply res) = 429
  ∧ listener res = None
  ∧ record afterThree "1.2.3.4" = Some {| count := 3; resetTime := 60000 |}
  ∧ record (world res) "1.2.3.4" = record afterThree "1.2.3.4"
  ∧ world res = afterThree.
Proof. vm_compute. split_and!; reflexivity. Qed.

(** C9, amended: the invocation of the middleware, admitting or rejecting,
    keeps every live record (reference, count and reset time) as it is; a
    rejected request registers no listener and so never changes the record
    of its key; an admitted request changes the record only through its
    [finish] listener, which adds one to the count of the record the request
    read unless a skip flag exempts the final status.  There is no
    decrement. *)
Theorem records_change_only_at_finish p request now w rep :
  let key := keyGenerator p request in
  let res := rateLimitMiddleware p request now w rep in
  sent rep = false →
  (∀ k r d, lookupLive w now k = Some (r, d) → lookupLive (world res) now k = Some (r, d))
  ∧ (sent (reply res) = true → listener res = None)
  ∧ (∀ l code r d, listener res = Some l → lookupLive (world res) now key = Some (r, d) →
       shouldCount p code = true →
       lookupLive (onFinish l code (world res)) now key
       = Some (r, {| count := count d + 1; resetTime := resetTime d |}))
  ∧ (∀ l code, listener res = Some l → shouldCount p code = false →
       onFinish l code (world res) = world res).
Proof.
  intros key res Hopen. subst res key. split_and!.
  - intros k r d. apply middleware_keeps_live.
  - intros Hsent. by apply middleware_sent.
  - intros l code r d Hl HL Hcount.
    destruct (admitted_listener p request now w rep l Hl)
      as (r' & d' & -> & Hk & Hr & _ & _).
    apply lookupLive_Some in HL as (Hk' & Hr' & Hlive). simplify_eq.
    destruct (onFinish_counted p (keyGenerator p request) r code _ d Hcount Hr').
    by apply lookupLive_Some.
  - intros l code Hl Hcount.
    destruct (admitted_listener p request now w rep l Hl)
      as (r' & d' & -> & _). by apply onFinish_exempt.
Qed.

Lemma records_change_only_at_finish_witness :
  sent freshReply = false
  ∧ (sent (reply (rateLimitMiddleware scenarioPolicy client 3000 afterThree freshReply)) = true →
     listener (rateLimitMiddleware scenarioPolicy client 3000 afterThree freshReply) = None).
Proof.
  split; [reflexivity|].
  destruct (records_change_only_at_finish scenarioPolicy client 3000 afterThree freshReply)
    as (_ & H & _); [reflexivity | exact H].
Defined.

(** ** Requests in flight together *)

(** C8, as the spec states it, fails: with limit 1, two requests for the
    same fresh key that both arrive before either has finished are both
    admitted. *)
Lemma simultaneous_requests_counterexample :
  let s := run [Arrive 1 onePolicy client 0; Arrive 2 onePolicy client 0;
                Finish 1 200; Finish 2 200] (idle emptyWorld) in
  admitted s 1 = true ∧ admitted s 2 = true
  ∧ rejected s 1 = false ∧ rejected s 2 = false
  ∧ record (s_world s) "1.2.3.4" = Some {| count := 2; resetTime := 60000 |}.
Proof. vm_compute. split_and!; reflexivity. Qed.

Lemma admitted_finish s id code i :
  admitted (step s (Finish id code)) i = admitted s i.
Proof.
  unfold admitted. simpl. destruct (s_pending s !! id); [|done]. simpl.
  rewrite lookup_alter. case_decide as Hi; [|done].
  subst. by destruct (s_replies s !! i).
Qed.

Lemma run_app es fs s : run (es ++ fs) s = run fs (run es s).
Proof. unfold run. apply foldl_app. Qed.

Lemma admitted_finishes fins : ∀ s i,
  Forall isFinish fins → admitted (run fins s) i = admitted s i.
Proof.
  induction fins as [|e fins IH]; intros s i Hall; [done|].
  apply Forall_cons in Hall as [He Hall]. unfold run in *. simpl.
  rewrite (IH _ _ Hall).
  destruct e as [| id code]; [done|]. apply admitted_finish.
Qed.

(** C8, amended: the check of the middleware is one uninterrupted step, but
    the count is only added when the response has finished.  With limit 1
    and a key without a live record: when the first request has finished
    and been counted before the second arrives in the same window, exactly
    one is admitted and the other is answered 429; when the second arrives
    before the first has finished, both are admitted. *)
Theorem admission_depends_on_finish_order p req1 req2 t1 t2 c1 fins w :
  let key := keyGenerator p req1 in
  keyGenerator p req2 = key →
  max p = 1 →
  lookupLive w t1 key = None →
  Forall isFinish fins →
  (shouldCount p c1 = true → t2 < t1 + windowMs p →
     admitted (run [Arrive 1 p req1 t1; Finish 1 c1; Arrive 2 p req2 t2] (idle w)) 1 = true
     ∧ rejected (run [Arrive 1 p req1 t1; Finish 1 c1; Arrive 2 p req2 t2] (idle w)) 2 = true)
  ∧ admitted (run ([Arrive 1 p req1 t1; Arrive 2 p req2 t2] ++ fins) (idle w)) 1 = true
  ∧ admitted (run ([Arrive 1 p req1 t1; Arrive 2 p req2 t2] ++ fins) (idle w)) 2 = true.
Proof.
  intros key Hkey Hmax Hfresh Hfins. subst key.
  pose proof (observe_fresh p _ t1 w Hfresh) as E1.
  pose proof (middleware_admit p req1 t1 w freshReply _ _ _ E1) as M1.
  simpl in M1. specialize (M1 ltac:(lia)).
  split.
  - intros Hcount Ht2. unfold run. simpl. rewrite M1. simpl.
    rewrite lookup_insert_eq. simpl.
    match goal with |- context [rateLimitMiddleware p req2 t2 ?w1 freshReply] =>
      assert (lookupLive w1 t2 (keyGenerator p req2)
              = Some (length (heap w), {| count := 1; resetTime := t1 + windowMs p |})) as HL
    end.
    { rewrite Hkey.
      match goal with |- context [onFinish ?l c1 ?w1] =>
        destruct (onFinish_counted p (keyGenerator p req1) (length (heap w)) c1 w1
                    {| count := 0; resetTime := t1 + windowMs p |} Hcount) as [H1 H2]
      end.
      { simpl. rewrite lookup_app_r by lia. by rewrite Nat.sub_diag. }
      apply lookupLive_Some. split_and!; [exact H1 | exact H2 | simpl; lia]. }
    rewrite (middleware_reject p req2 t2 _ freshReply _ _ _ (observe_live p _ _ _ _ _ HL))
      by (simpl; lia).
    unfold admitted, rejected. simpl.
    rewrite lookup_insert_eq, lookup_insert_ne by done.
    rewrite lookup_alter, decide_True by done. rewrite lookup_insert_eq. simpl.
    by rewrite sent_oldHeaders, sent_stdHeaders.
  - rewrite run_app.
    rewrite (admitted_finishes fins _ 1%nat Hfins), (admitted_finishes fins _ 2%nat Hfins).
    unfold run. simpl. rewrite M1. simpl.
    match goal with |- context [rateLimitMiddleware p req2 t2 ?w1 freshReply] =>
      destruct (observe p (keyGenerator p req2) t2 w1) as [[w2 r2] d2] eqn:E2;
      assert (count d2 = 0) as Hd2
    end.
    { match type of E2 with observe _ _ _ ?w1 = _ =>
        destruct (lookupLive w1 t2 (keyGenerator p req2)) as [[r' d']|] eqn:HL
      end.
      - rewrite (observe_live _ _ _ _ _ _ HL) in E2. injection E2 as <- <- <-.
        apply lookupLive_Some in HL as (Hk & Hr & _). simpl in Hk, Hr.
        rewrite Hkey, lookup_insert_eq in Hk. injection Hk as <-.
        rewrite lookup_app_r, Nat.sub_diag in Hr by lia. by injection Hr as <-.
      - rewrite (observe_fresh _ _ _ _ HL) in E2. by injection E2 as <- <- <-. }
    rewrite (middleware_admit p req2 t2 _ freshReply _ _ _ E2) by lia.
    unfold admitted. simpl.
    rewrite lookup_insert_eq, lookup_insert_ne by done. rewrite lookup_insert_eq. simpl.
    by rewrite !sent_oldHeaders, !sent_stdHeaders.
Qed.

Lemma admission_depends_on_finish_order_witness :
  (admitted (run [Arrive 1 onePolicy client 0; Finish 1 200; Arrive 2 onePolicy client 10]
               (idle emptyWorld)) 1 = true
   ∧ rejected (run [Arrive 1 onePolicy client 0; Finish 1 200; Arrive 2 onePolicy client 10]
                 (idle emptyWorld)) 2 = true)
  ∧ admitted (run ([Arrive 1 onePolicy client 0; Arrive 2 onePolicy client 10]
                     ++ [Finish 2 200; Finish 1 500]) (idle emptyWorld)) 1 = true
  ∧ admitted (run ([Arrive 1 onePolicy client 0; Arrive 2 onePolicy client 10]
                     ++ [Finish 2 200; Finish 1 500]) (idle emptyWorld)) 2 = true.
Proof.
  destruct (admission_depends_on_finish_order onePolicy client client 0 10 200
              [Finish 2 200; Finish 1 500] emptyWorld) as [H1 H2].
  - reflexivity.
  - reflexivity.
  - reflexivity.
  - repeat (apply Forall_cons_2; [exact I|]). apply Forall_nil_2.
  - split; [apply H1; [reflexivity | simpl; lia] | exact H2].
Defined.

(** ** One store for every instance *)

Lemma lookupLive_later w t1 t2 key :
  t1 ≤ t2 → lookupLive w t1 key = None → lookupLive w t2 key = None.
Proof.
  intros Ht H1. destruct (lookupLive w t2 key) as [[r d]|] eqn:E; [|done].
  apply lookupLive_Some in E as (Hk & Hr & Hlive).
  assert (lookupLive w t1 key = Some (r, d)) as H2 by (apply lookupLive_Some; split_and!; [done..|lia]).
  congruence.
Qed.

(** Entries of other keys after an invocation: the live ones, untouched. *)
Lemma middleware_other_keys p request now w rep k :
  k ≠ keyGenerator p request →
  rateLimitStore (world (rateLimitMiddleware p request now w rep)) !! k
  = rateLimitStore w !! k ≫= λ r, liveData (heap w) now r ≫= λ _, Some r.
Proof.
  intros Hne. rewrite <- sweep_lookup.
  destruct (observe p (keyGenerator p request) now w) as [[w1 r1] d1] eqn:E.
  assert (world (rateLimitMiddleware p request now w rep) = w1) as ->.
  { destruct (Z.le_gt_cases (max p) (count d1)) as [Hc|Hc].
    - by rewrite (middleware_reject _ _ _ _ _ _ _ _ E Hc).
    - by rewrite (middleware_admit _ _ _ _ _ _ _ _ E Hc). }
  destruct (lookupLive w now (keyGenerator p request)) as [[r' d']|] eqn:HK.
  - rewrite (observe_live _ _ _ _ _ _ HK) in E. by injection E as <- <- <-.
  - rewrite (observe_fresh _ _ _ _ HK) in E. injection E as <- <- <-.
    simpl. by rewrite lookup_insert_ne.
Qed.

(** C10: every instance works on the one module-level map, keyed by the
    generated key alone.  After a request admitted and counted through the
    instance of policy [p1], the instance of any policy [p2] reads, for the
    same key and while the record lives, the very object [p1] counted on: a
    count one higher than it would have read otherwise, and the reset time
    of the window the [p1] request found or opened ([t1 + windowMs p1] on a
    key without a live record, where [p2] alone would have opened
    [t2 + windowMs p2]).  And every invocation of any instance first deletes
    the expired entries of all keys. *)
Theorem instances_share_one_store p1 p2 req1 req2 t1 t2 code w w1 r d :
  let k := keyGenerator p1 req1 in
  let w' := (serve p1 req1 t1 code w).1 in
  keyGenerator p2 req2 = k →
  observe p1 k t1 w = (w1, r, d) →
  count d < max p1 →
  shouldCount p1 code = true →
  t1 ≤ t2 < resetTime d →
  observe p2 (keyGenerator p2 req2) t2 w'
    = (sweep t2 w', r, {| count := count d + 1; resetTime := resetTime d |})
  ∧ count (observe p2 k t2 w').2 = count (observe p2 k t2 w).2 + 1
  ∧ (lookupLive w t1 k = None →
       resetTime (observe p2 k t2 w').2 = t1 + windowMs p1
       ∧ resetTime (observe p2 k t2 w).2 = t2 + windowMs p2)
  ∧ (∀ p request now w0 rep k' r' d',
       rateLimitStore w0 !! k' = Some r' → heap w0 !! r' = Some d' → resetTime d' ≤ now →
       rateLimitStore (world (rateLimitMiddleware p request now w0 rep)) !! k' ≠ Some r'
       ∧ (k' ≠ keyGenerator p request →
          rateLimitStore (world (rateLimitMiddleware p request now w0 rep)) !! k' = None)).
Proof.
  intros k w' Hkey E Hc Hcount Ht. subst w' k. rewrite Hkey.
  rewrite (serve_admit _ _ _ _ _ _ _ _ E Hc). simpl.
  assert (rateLimitStore w1 !! keyGenerator p1 req1 = Some r ∧ heap w1 !! r = Some d)
    as [Hk Hr].
  { destruct (observe_record _ _ _ _ _ _ _ E) as [(? & ? & _)|(_ & ? & ? & _)]; done. }
  destruct (onFinish_counted p1 (keyGenerator p1 req1) r code w1 d Hcount Hr) as [Hk' Hr'].
  match goal with |- context [onFinish ?l code w1] => set (w' := onFinish l code w1) in * end.
  assert (observe p2 (keyGenerator p1 req1) t2 w'
          = (sweep t2 w', r, {| count := count d + 1; resetTime := resetTime d |})) as E2.
  { apply observe_live, lookupLive_Some. split_and!; [done | done | simpl; lia]. }
  rewrite E2. simpl. split; [done|].
  assert (count (observe p2 (keyGenerator p1 req1) t2 w).2 = count d
          ∧ (lookupLive w t1 (keyGenerator p1 req1) = None →
             resetTime d = t1 + windowMs p1
             ∧ resetTime (observe p2 (keyGenerator p1 req1) t2 w).2 = t2 + windowMs p2))
    as [Hsame Hfresh].
  { destruct (lookupLive w t1 (keyGenerator p1 req1)) as [[r0 d0]|] eqn:HL.
    - rewrite (observe_live _ _ _ _ _ _ HL) in E. injection E as <- <- <-.
      apply lookupLive_Some in HL as (? & ? & ?).
      assert (lookupLive w t2 (keyGenerator p1 req1) = Some (r0, d0)) as HL2
        by (apply lookupLive_Some; split_and!; [done | done | lia]).
      by rewrite (observe_live _ _ _ _ _ _ HL2).
    - rewrite (observe_fresh _ _ _ _ HL) in E. injection E as <- <- <-.
      rewrite (observe_fresh p2 _ t2 w (lookupLive_later _ _ _ _ (proj1 Ht) HL)).
      done. }
  split; [lia|]. split; [done|].
  intros p request now w0 rep k' r' d' Hk0 Hr0 Hexp.
  assert (rateLimitStore w0 !! k' ≫= (λ r, liveData (heap w0) now r ≫= λ _, Some r) = None)
    as Hgone.
  { rewrite Hk0. simpl.
    destruct (liveData (heap w0) now r') as [d''|] eqn:HLd; [|done].
    apply liveData_Some in HLd as [? ?]. simplify_eq. lia. }
  split; [|intros Hne; by rewrite middleware_other_keys].
  destruct (decide (k' = keyGenerator p request)) as [->|Hne];
    [|by rewrite middleware_other_keys, Hgone].
  assert (lookupLive w0 now (keyGenerator p request) = None) as HL0.
  { apply (lookupLive_expired _ _ _ d'); [apply record_Some; eauto | done]. }
  pose proof (observe_fresh p _ now w0 HL0) as E0.
  assert (world (rateLimitMiddleware p request now w0 rep)
          = (observe p (keyGenerator p request) now w0).1.1) as ->.
  { rewrite E0. simpl.
    destruct (Z.le_gt_cases (max p) 0) as [Hm|Hm].
    - by rewrite (middleware_reject _ _ _ _ _ _ _ _ E0) by (simpl; lia).
    - by rewrite (middleware_admit _ _ _ _ _ _ _ _ E0) by (simpl; lia). }
  rewrite E0. simpl. rewrite lookup_insert_eq. intros [= Heq].
  apply lookup_lt_Some in Hr0. lia.
Qed.

(** A request through the strict instance, then one through the default
    instance for the same client. *)
Lemma instances_share_one_store_witness :
  observe (resolve noOptions) "1.2.3.4" 1000
    (serve (resolve strictOptions) client 0 200 emptyWorld).1
  = (sweep 1000 (serve (resolve strictOptions) client 0 200 emptyWorld).1, 0%nat,
     {| count := 1; resetTime := 300000 |})
  ∧ (observe (resolve noOptions) "1.2.3.4" 1000 emptyWorld).2
    = {| count := 0; resetTime := 901000 |}.
Proof.
  split; [|vm_compute; reflexivity].
  destruct (instances_share_one_store (resolve strictOptions) (resolve noOptions)
              client client 0 1000 200 emptyWorld
              (observe (resolve strictOptions) "1.2.3.4" 0 emptyWorld).1.1
              0%nat {| count := 0; resetTime := 300000 |}) as [H _].
  - reflexivity.
  - vm_compute. reflexivity.
  - simpl. lia.
  - reflexivity.
  - simpl. lia.
  - exact H.
Defined.

(** ** Route scope *)

Lemma includes_true l route : includes l route = true ↔ route ∈ l.
Proof. unfold includes. apply bool_decide_eq_true. Qed.

Lemma includes_false l route : includes l route = false ↔ route ∉ l.
Proof. unfold includes. apply bool_decide_eq_false. Qed.

(** C7, as the spec states it, fails on [shouldSkip]: a route on both lists
    is skipped although [onlyRoutes] contains it; a stage without any scope
    option is skipped; and a [/*] entry of [skipRoutes] matches no route
    below it. *)
Lemma route_matcher_counterexample :
  let todos := {| ip := "1.2.3.4"; url := "/api/v1/todos"; routerPath := "/api/v1/todos" |} in
  let docs := {| ip := "1.2.3.4"; url := "/docs/json"; routerPath := "/docs/json" |} in
  (appliesPerSpec ["/api/v1/todos"] ["/api/v1/todos"] "/api/v1/todos" = true
   ∧ shouldSkip {| enabled := Some true; skipRoutes := Some ["/api/v1/todos"];
                   onlyRoutes := Some ["/api/v1/todos"] |} todos = true)
  ∧ (appliesPerSpec [] [] "/api/v1/todos" = true
     ∧ shouldSkip {| enabled := None; skipRoutes := None; onlyRoutes := None |} todos = true)
  ∧ (appliesPerSpec [] ["/docs/*"] "/docs/json" = false
     ∧ shouldSkip {| enabled := Some true; skipRoutes := Some ["/docs/*"];
                     onlyRoutes := None |} docs = false).
Proof. vm_compute. split_and!; reflexivity. Qed.

Lemma prefix_app pre rest : String.prefix pre (pre +:+ rest) = true.
Proof.
  induction pre as [|a pre IH]; simpl; [by destruct rest|].
  destruct (Ascii.ascii_dec a a); [exact IH | done].
Qed.

Lemma existsb_elem_of {A} (f : A → bool) l :
  existsb f l = true ↔ ∃ x, x ∈ l ∧ f x = true.
Proof.
  rewrite existsb_exists. split; intros (x & Hx & Hf); exists x; split; try done;
    by apply list_elem_of_In.
Qed.

(** C7, amended: [shouldSkip] compares the route template
    [request.routerPath] with the list entries for equality only, and the
    stage applies exactly when [enabled] is true, [onlyRoutes] is absent or
    contains the route, and [skipRoutes] is absent or does not contain it
    (both lists are consulted; an empty [onlyRoutes] excludes every route;
    without options the stage does not apply).  The [/*] suffix is known
    only to the JWT hook, which compares the raw [request.url]: an entry
    ending in [/*] matches every URL that starts with the entry less its
    last two characters, so [/docs/*] matches [/docs] and whatever follows
    it; any other entry matches the equal URL only. *)
Theorem route_scope_as_coded options request jwtSkipRoutes :
  (shouldSkip options request = false ↔
     enabled options = Some true
     ∧ (∀ l, onlyRoutes options = Some l → routerPath request ∈ l)
     ∧ (∀ l, skipRoutes options = Some l → routerPath request ∉ l))
  ∧ (jwtShouldSkip jwtSkipRoutes request = true ↔
       ∃ entry, entry ∈ default [] jwtSkipRoutes
         ∧ if endsWith entry "/*" then startsWith (url request) (sliceEnd entry 2) = true
           else url request = entry)
  ∧ (∀ rest, matchesEntry ("/docs" +:+ rest) "/docs/*" = true)
  ∧ (∀ rest, matchesEntry ("/docs" +:+ rest) "/docs" = true ↔ rest = "").
Proof.
  split_and!.
  - unfold shouldSkip.
    destruct (onlyRoutes options) as [only|], (skipRoutes options) as [skip|];
      try destruct (includes only (routerPath request)) eqn:Ho;
      try destruct (includes skip (routerPath request)) eqn:Hs;
      repeat match goal with
             | H : includes _ _ = true |- _ => apply includes_true in H
             | H : includes _ _ = false |- _ => apply includes_false in H
             end;
      destruct (enabled options) as [[]|]; simpl;
      (split;
       [intros He;
        first [ discriminate He
              | split_and!; [done | by intros ? [= <-] | by intros ? [= <-]] ]
       | intros (He & Hon & Hsk);
         first [ discriminate He | done
               | exfalso; exact (Ho (Hon _ eq_refl)) | exfalso; exact (Hsk _ eq_refl Hs) ]]).
  - unfold jwtShouldSkip. rewrite existsb_elem_of.
    split; intros (entry & Hin & Hm); exists entry; (split; [done|]);
      unfold matchesEntry in *; destruct (endsWith entry "/*"); try done.
    + by apply String.eqb_eq.
    + by apply String.eqb_eq.
  - intros rest. unfold matchesEntry. simpl. apply (prefix_app "/docs").
  - intros rest. unfold matchesEntry. simpl. rewrite String.eqb_eq.
    split; [|by intros ->]. intros H. simpl in H. by simplify_eq.
Qed.

(** * Further properties of the middleware *)

(** ** Any number of sequential requests *)

Lemma sweep_keeps_live now w key r d :
  rateLimitStore w !! key = Some r → heap w !! r = Some d → now < resetTime d →
  rateLimitStore (sweep now w) !! key = Some r.
Proof.
  intros Hk Hr Hlive.
  assert (lookupLive (sweep now w) now key = Some (r, d)) as H.
  { rewrite lookupLive_sweep. by apply lookupLive_Some. }
  by apply lookupLive_Some in H as (? & _).
Qed.

(** A request against a live record at or over the limit: answered 429,
    nothing but the sweep happens to the store. *)
Lemma serve_rejected_live p request now code w r c R :
  rateLimitStore w !! keyGenerator p request = Some r →
  heap w !! r = Some {| count := c; resetTime := R |} →
  now < R → max p ≤ c →
  ∃ rep, serve p request now code w = (sweep now w, rep)
    ∧ sent rep = true ∧ statusCode rep = 429.
Proof.
  intros Hk Hr Hnow Hc.
  assert (lookupLive w now (keyGenerator p request)
          = Some (r, {| count := c; resetTime := R |})) as HL.
  { by apply lookupLive_Some. }
  rewrite (serve_reject _ _ _ _ _ _ _ _ (observe_live p _ _ _ _ _ HL)) by done.
  eexists. split; [reflexivity|]. done.
Qed.

(** Counted requests in the window of a live record: request [i] passes
    exactly when the count it finds, [c + i], is below the limit. *)
Lemma serveAll_window p request reqs :
  ∀ w r c R,
  rateLimitStore w !! keyGenerator p request = Some r →
  heap w !! r = Some {| count := c; resetTime := R |} →
  Forall (λ nc : Z * Z, nc.1 < R ∧ shouldCount p nc.2 = true) reqs →
  ∃ w' reps, serveAll p request reqs w = (w', reps)
    ∧ rateLimitStore w' !! keyGenerator p request = Some r
    ∧ heap w' !! r
      = Some {| count := Z.max c (Z.min (c + Z.of_nat (length reqs)) (max p));
                resetTime := R |}
    ∧ ∀ (i : nat) rep, reps !! i = Some rep →
        (sent rep = false ↔ c + Z.of_nat i < max p)
        ∧ (sent rep = true → statusCode rep = 429).
Proof.
  induction reqs as [|[now code] reqs IH]; intros w r c R Hk Hr Hall.
  - exists w, []. simpl. split_and!; try done.
    rewrite Hr. do 2 f_equal. lia.
  - apply Forall_cons in Hall as [[Hnow Hcount] Hall]. simpl in Hnow, Hcount.
    destruct (Z.lt_ge_cases c (max p)) as [Hc|Hc].
    + destruct (serve_counted_live p request now code w r c R) as
        (w1 & rep & Hserve & Hk1 & Hr1 & Hsent & _); try done.
      destruct (IH w1 r (c + 1) R Hk1 Hr1 Hall) as (w2 & reps & Hrest & Hk2 & Hr2 & Hreps).
      exists w2, (rep :: reps). simpl. rewrite Hserve, Hrest.
      split_and!; try done.
      * rewrite Hr2. do 2 f_equal. simpl length. lia.
      * intros [|i] rep' Hi; simpl in Hi.
        { injection Hi as <-. split; [split; [lia | done] | congruence]. }
        destruct (Hreps i rep' Hi) as [Hiff H429]. split; [|done].
        rewrite Hiff. lia.
    + destruct (serve_rejected_live p request now code w r c R) as
        (rep & Hserve & Hsent & H429); try done.
      destruct (IH (sweep now w) r c R) as (w2 & reps & Hrest & Hk2 & Hr2 & Hreps);
        try done.
      { by eapply sweep_keeps_live. }
      exists w2, (rep :: reps). simpl. rewrite Hserve, Hrest.
      split_and!; try done.
      * rewrite Hr2. do 2 f_equal. simpl length. lia.
      * intros [|i] rep' Hi; simpl in Hi.
        { injection Hi as <-. split; [split; [congruence | lia] | done]. }
        destruct (Hreps i rep' Hi) as [Hiff H429']. split; [|done].
        rewrite Hiff. lia.
Qed.

(** X1: requests of one key served one after the other, all counted, all
    within the window the first one opens on a key without a live record:
    the [i]-th (from 0) is admitted exactly when [i < max], every other one
    is answered 429, and the record ends with count [min(n, max)] (0 for a
    negative limit). *)
Theorem sequential_admissions_bounded p request t0 c0 rest w :
  let key := keyGenerator p request in
  lookupLive w t0 key = None →
  shouldCount p c0 = true →
  Forall (λ nc : Z * Z, nc.1 < t0 + windowMs p ∧ shouldCount p nc.2 = true) rest →
  ∃ w' reps, serveAll p request ((t0, c0) :: rest) w = (w', reps)
    ∧ record w' key
      = Some {| count := Z.max 0 (Z.min (Z.of_nat (S (length rest))) (max p));
                resetTime := t0 + windowMs p |}
    ∧ ∀ (i : nat) rep, reps !! i = Some rep →
        (sent rep = false ↔ Z.of_nat i < max p)
        ∧ (sent rep = true → statusCode rep = 429).
Proof.
  intros key Hfresh Hc0 Hall. subst key.
  destruct (Z.lt_ge_cases 0 (max p)) as [Hmax|Hmax].
  - destruct (serve_counted_fresh p request t0 c0 w Hfresh Hmax Hc0) as
      (w1 & rep1 & r & Hserve & Hk1 & Hr1 & Hsent1 & _).
    destruct (serveAll_window p request rest w1 r 1 (t0 + windowMs p) Hk1 Hr1 Hall)
      as (w2 & reps & Hrest & Hk2 & Hr2 & Hreps).
    exists w2, (rep1 :: reps). simpl. rewrite Hserve, Hrest.
    split_and!; try done.
    + apply record_Some. exists r. split; [done|]. rewrite Hr2. do 2 f_equal. lia.
    + intros [|i] rep' Hi; simpl in Hi.
      { injection Hi as <-. split; [split; [lia | done] | congruence]. }
      destruct (Hreps i rep' Hi) as [Hiff H429]. split; [|done]. rewrite Hiff. lia.
  - pose proof (observe_fresh p _ t0 w Hfresh) as E.
    pose proof (serve_reject p request t0 c0 w _ _ _ E ltac:(simpl; lia)) as Hserve.
    match type of Hserve with _ = (?w1, ?rep1) =>
      destruct (serveAll_window p request rest w1 (length (heap w)) 0 (t0 + windowMs p))
        as (w2 & reps & Hrest & Hk2 & Hr2 & Hreps); try done;
      [ by (simpl; rewrite lookup_insert_eq)
      | by (simpl; rewrite lookup_app_r, Nat.sub_diag by lia) |];
      exists w2, (rep1 :: reps)
    end.
    simpl. rewrite Hserve, Hrest. split_and!; try done.
    + apply record_Some. exists (length (heap w)). split; [done|].
      rewrite Hr2. do 2 f_equal. lia.
    + intros [|i] rep' Hi; simpl in Hi.
      { injection Hi as <-. simpl. split; [split; [congruence | lia] | done]. }
      destruct (Hreps i rep' Hi) as [Hiff H429]. split; [|done]. rewrite Hiff. lia.
Qed.

Lemma sequential_admissions_bounded_witness :
  ∃ w' reps,
    serveAll scenarioPolicy client
      [(0, 200); (10, 200); (20, 404); (30, 200); (40, 500)] emptyWorld = (w', reps)
    ∧ record w' "1.2.3.4" = Some {| count := 3; resetTime := 60000 |}
    ∧ ∀ (i : nat) rep, reps !! i = Some rep →
        (sent rep = false ↔ Z.of_nat i < 3)
        ∧ (sent rep = true → statusCode rep = 429).
Proof.
  apply (sequential_admissions_bounded scenarioPolicy client 0 200
           [(10, 200); (20, 404); (30, 200); (40, 500)] emptyWorld).
  - reflexivity.
  - reflexivity.
  - repeat (apply Forall_cons_2; [split; [simpl; lia | reflexivity]|]). apply Forall_nil_2.
Defined.

(** ** The sign of the counters and the bounds of the headers *)

Lemma nonneg_observe p key now w w1 r d :
  nonnegCounts w → observe p key now w = (w1, r, d) →
  nonnegCounts w1 ∧ 0 ≤ count d.
Proof.
  unfold nonnegCounts. intros Hw E.
  destruct (lookupLive w now key) as [[r' d']|] eqn:HL.
  - rewrite (observe_live _ _ _ _ _ _ HL) in E. injection E as <- <- <-.
    split; [done|]. apply lookupLive_Some in HL as (_ & Hr & _).
    by apply (Forall_lookup_1 _ _ _ _ Hw Hr).
  - rewrite (observe_fresh _ _ _ _ HL) in E. injection E as <- <- <-. simpl.
    split; [|done]. apply Forall_app. split; [done|]. by apply Forall_singleton.
Qed.

Lemma world_middleware p request now w rep :
  world (rateLimitMiddleware p request now w rep)
  = (observe p (keyGenerator p request) now w).1.1.
Proof.
  destruct (observe p (keyGenerator p request) now w) as [[w1 r] d] eqn:E.
  destruct (Z.le_gt_cases (max p) (count d)) as [Hc|Hc].
  - by rewrite (middleware_reject _ _ _ _ _ _ _ _ E Hc).
  - by rewrite (middleware_admit _ _ _ _ _ _ _ _ E Hc).
Qed.

Lemma nonneg_middleware p request now w rep :
  nonnegCounts w → nonnegCounts (world (rateLimitMiddleware p request now w rep)).
Proof.
  intros Hw. rewrite world_middleware.
  destruct (observe p (keyGenerator p request) now w) as [[w1 r] d] eqn:E.
  by destruct (nonneg_observe _ _ _ _ _ _ _ Hw E).
Qed.

Lemma nonneg_onFinish l code w :
  nonnegCounts w → nonnegCounts (onFinish l code w).
Proof.
  unfold nonnegCounts, onFinish. intros Hw.
  destruct (shouldCount (l_policy l) code); [|done]. simpl.
  destruct (heap w !! l_data l) as [d|] eqn:Hd; [|done].
  apply Forall_insert; [done|]. simpl.
  pose proof (Forall_lookup_1 _ _ _ _ Hw Hd) as H. simpl in H. lia.
Qed.

(** X2: whatever the order of arrivals and finished responses, of whatever
    instances and clients, no counter ever becomes negative. *)
Theorem counts_never_negative es s :
  nonnegCounts (s_world s) → nonnegCounts (s_world (run es s)).
Proof.
  revert s. induction es as [|e es IH]; intros s Hs; [done|].
  unfold run in *. simpl. apply IH.
  destruct e as [id p request now | id code]; simpl.
  - by apply nonneg_middleware.
  - destruct (s_pending s !! id); [|done]. simpl. by apply nonneg_onFinish.
Qed.

Lemma counts_never_negative_witness :
  nonnegCounts (s_world (run [Arrive 1 onePolicy client 0; Arrive 2 onePolicy client 0;
                              Finish 1 200; Finish 2 200] (idle emptyWorld))).
Proof.
  apply (counts_never_negative _ (idle emptyWorld)). apply Forall_nil_2.
Defined.

(** X3: in a world without negative counters, the [RateLimit-Remaining]
    header of every reply of the middleware, admitted or rejected, is an
    integer between 0 and [max - 1] (0 when the limit is below 1). *)
Theorem remaining_within_limit p request now w rep :
  nonnegCounts w →
  standardHeaders p = true →
  ∃ n, headers (reply (rateLimitMiddleware p request now w rep)) !! "RateLimit-Remaining"
       = Some (HStr (toString n))
     ∧ 0 ≤ n ≤ Z.max 0 (max p - 1).
Proof.
  intros Hw Hs.
  destruct (observe p (keyGenerator p request) now w) as [[w1 r] d] eqn:E.
  destruct (nonneg_observe _ _ _ _ _ _ _ Hw E) as [_ Hd].
  destruct (Z.le_gt_cases (max p) (count d)) as [Hc|Hc].
  - rewrite (middleware_reject _ _ _ _ _ _ _ _ E Hc). simpl. exists 0.
    rewrite lookup_insert_ne by done.
    destruct (std_after_old p "0" "0" d rep Hs) as (_ & H & _). split; [done | lia].
  - rewrite (middleware_admit _ _ _ _ _ _ _ _ E Hc). simpl. exists (max p - count d - 1).
    destruct (std_after_old p (toString (max p - count d - 1))
                (toString (max p - count d - 1)) d rep Hs) as (_ & H & _).
    split; [done | lia].
Qed.

Lemma remaining_within_limit_witness :
  ∃ n, headers (reply (rateLimitMiddleware scenarioPolicy client 2500 afterThree freshReply))
         !! "RateLimit-Remaining" = Some (HStr (toString n))
     ∧ 0 ≤ n ≤ 2.
Proof.
  apply (remaining_within_limit scenarioPolicy client 2500 afterThree freshReply).
  - unfold nonnegCounts.
    assert (heap afterThree = [{| count := 3; resetTime := 60000 |}]) as ->
      by (vm_compute; reflexivity).
    apply Forall_singleton. simpl. lia.
  - reflexivity.
Defined.

(** X4: a limit of zero or less rejects every request (in a world without
    negative counters): the answer is 429 and no listener is registered. *)
Theorem nonpositive_limit_rejects_all p request now w rep :
  nonnegCounts w →
  max p ≤ 0 →
  listener (rateLimitMiddleware p request now w rep) = None
  ∧ sent (reply (rateLimitMiddleware p request now w rep)) = true
  ∧ statusCode (reply (rateLimitMiddleware p request now w rep)) = 429.
Proof.
  intros Hw Hmax.
  destruct (observe p (keyGenerator p request) now w) as [[w1 r] d] eqn:E.
  destruct (nonneg_observe _ _ _ _ _ _ _ Hw E) as [_ Hd].
  by rewrite (middleware_reject _ _ _ _ _ _ _ _ E) by lia.
Qed.

Lemma nonpositive_limit_rejects_all_witness :
  listener (rateLimitMiddleware
              (resolve {| o_windowMs := None; o_max := Some 0; o_message := None;
                          o_standardHeaders := None; o_legacyHeaders := None;
                          o_skipSuccessfulRequests := None; o_skipFailedRequests := None;
                          o_keyGenerator := None |}) client 0 emptyWorld freshReply) = None.
Proof.
  apply (nonpositive_limit_rejects_all _ client 0 emptyWorld freshReply).
  - apply Forall_nil_2.
  - simpl. lia.
Defined.

Lemma ceilDiv_pos x : 0 < x → 1 ≤ ceilDiv x 1000.
Proof.
  intros H. unfold ceilDiv.
  assert ((- x) / 1000 < 0) by (apply Z.div_lt_upper_bound; lia). lia.
Qed.

(** X5: with a positive window, a rejection always tells the client to wait
    at least one second: the [retryAfter] of the body, which is also the
    [Retry-After] header, is at least 1. *)
Theorem retry_after_at_least_one p request now w rep :
  0 < windowMs p →
  listener (rateLimitMiddleware p request now w rep) = None →
  ∃ b, payload (reply (rateLimitMiddleware p request now w rep)) = Some b
     ∧ 1 ≤ retryAfter b
     ∧ headers (reply (rateLimitMiddleware p request now w rep)) !! "Retry-After"
       = Some (HStr (toString (retryAfter b))).
Proof.
  intros HW Hl.
  destruct (observe p (keyGenerator p request) now w) as [[w1 r] d] eqn:E.
  destruct (Z.le_gt_cases (max p) (count d)) as [Hc|Hc].
  - rewrite (middleware_reject _ _ _ _ _ _ _ _ E Hc). simpl.
    eexists. split; [reflexivity|]. simpl. rewrite lookup_insert_eq. split; [|done].
    apply ceilDiv_pos.
    destruct (observe_record _ _ _ _ _ _ _ E) as [(_ & _ & ?)|(_ & _ & _ & ->)];
      simpl; lia.
  - by rewrite (middleware_admit _ _ _ _ _ _ _ _ E Hc) in Hl.
Qed.

Lemma retry_after_at_least_one_witness :
  ∃ b, payload (reply (rateLimitMiddleware scenarioPolicy client 59999 afterThree freshReply))
       = Some b
     ∧ 1 ≤ retryAfter b
     ∧ headers (reply (rateLimitMiddleware scenarioPolicy client 59999 afterThree freshReply))
         !! "Retry-After" = Some (HStr (toString (retryAfter b))).
Proof.
  apply (retry_after_at_least_one scenarioPolicy client 59999 afterThree freshReply).
  - simpl. lia.
  - vm_compute. reflexivity.
Defined.

(** ** Overlapping requests *)

Lemma run_cons e es s : run (e :: es) s = run es (step s e).
Proof. reflexivity. Qed.

Lemma finishes_cons first n code :
  finishes first (S n) code = Finish first code :: finishes (S first) n code.
Proof. reflexivity. Qed.

Lemma finishes_isFinish first n code : Forall isFinish (finishes first n code).
Proof.
  unfold finishes. apply Forall_fmap, Forall_forall. intros id _. exact I.
Qed.

(** Arrivals against a live record with count 0 and a limit of at least 1:
    every one is admitted and registers a listener on that record, which
    stays at count 0. *)
Lemma run_arrivals p request ts :
  ∀ first s r R,
  0 < max p →
  rateLimitStore (s_world s) !! keyGenerator p request = Some r →
  heap (s_world s) !! r = Some {| count := 0; resetTime := R |} →
  Forall (λ t, t < R) ts →
  rateLimitStore (s_world (run (arrivals p request first ts) s)) !! keyGenerator p request
    = Some r
  ∧ heap (s_world (run (arrivals p request first ts) s)) = heap (s_world s)
  ∧ (∀ i, (i < length ts)%nat →
       s_pending (run (arrivals p request first ts) s) !! (first + i)%nat
       = Some {| l_policy := p; l_key := keyGenerator p request; l_data := r |}
       ∧ admitted (run (arrivals p request first ts) s) (first + i) = true)
  ∧ (∀ j, (j < first)%nat →
       s_pending (run (arrivals p request first ts) s) !! j = s_pending s !! j
       ∧ s_replies (run (arrivals p request first ts) s) !! j = s_replies s !! j).
Proof.
  induction ts as [|now ts IH]; intros first s r R Hmax Hk Hr Hall.
  - simpl. split_and!; try done. intros i Hi. simpl in Hi. lia.
  - apply Forall_cons in Hall as [Hnow Hall].
    assert (lookupLive (s_world s) now (keyGenerator p request)
            = Some (r, {| count := 0; resetTime := R |})) as HL
      by (by apply lookupLive_Some).
    pose proof (middleware_admit p request now (s_world s) freshReply _ _ _
                  (observe_live p _ _ _ _ _ HL) ltac:(simpl; lia)) as M.
    simpl arrivals. rewrite !run_cons.
    set (s1 := step s (Arrive first p request now)).
    assert (s_world s1 = sweep now (s_world s)) as Hw1 by (unfold s1; simpl; by rewrite M).
    assert (s_pending s1 = <[first := {| l_policy := p; l_key := keyGenerator p request;
                                         l_data := r |}]> (s_pending s)) as Hp1
      by (unfold s1; simpl; by rewrite M).
    assert (∃ rep, s_replies s1 = <[first := rep]> (s_replies s) ∧ sent rep = false)
      as (rep & Hr1 & Hsent).
    { eexists. unfold s1. simpl. rewrite M. simpl. split; [reflexivity|].
      by rewrite sent_oldHeaders, sent_stdHeaders. }
    destruct (IH (S first) s1 r R Hmax) as (Hk' & Hh' & Hnew & Hold); try done.
    { rewrite Hw1. by eapply sweep_keeps_live. }
    { by rewrite Hw1. }
    split_and!.
    + done.
    + by rewrite Hh', Hw1.
    + intros [|i] Hi.
      * rewrite Nat.add_0_r. destruct (Hold first ltac:(lia)) as [Hpf Hrf].
        split; [by rewrite Hpf, Hp1, lookup_insert_eq|].
        unfold admitted. by rewrite Hrf, Hr1, lookup_insert_eq, Hsent.
      * simpl in Hi. replace (first + S i)%nat with (S first + i)%nat by lia.
        apply Hnew. lia.
    + intros j Hj. destruct (Hold j ltac:(lia)) as [Hpj Hrj].
      rewrite Hpj, Hrj, Hp1, Hr1. by rewrite !lookup_insert_ne by lia.
Qed.

(** The responses of [n] requests that all hold a listener on one record
    finish: the record gains [n]. *)
Lemma run_finishes p key code n :
  ∀ first s r c R,
  shouldCount p code = true →
  rateLimitStore (s_world s) !! key = Some r →
  heap (s_world s) !! r = Some {| count := c; resetTime := R |} →
  (∀ i, (i < n)%nat →
     s_pending s !! (first + i)%nat = Some {| l_policy := p; l_key := key; l_data := r |}) →
  rateLimitStore (s_world (run (finishes first n code) s)) !! key = Some r
  ∧ heap (s_world (run (finishes first n code) s)) !! r
    = Some {| count := c + Z.of_nat n; resetTime := R |}.
Proof.
  induction n as [|n IH]; intros first s r c R Hcount Hk Hr Hpend.
  - simpl. rewrite Z.add_0_r. done.
  - rewrite finishes_cons, !run_cons.
    pose proof (Hpend 0%nat ltac:(lia)) as H0. rewrite Nat.add_0_r in H0.
    simpl step. rewrite H0.
    destruct (onFinish_counted p key r code (s_world s) _ Hcount Hr) as [Hk1 Hr1].
    match goal with |- context [run _ ?s1] =>
      destruct (IH (S first) s1 r (c + 1) R Hcount Hk1 Hr1) as [Hk2 Hr2]
    end.
    { intros i Hi. simpl. rewrite lookup_delete_ne by lia.
      replace (S (first + i)) with (first + S i)%nat by lia. apply Hpend. lia. }
    split; [done|]. rewrite Hr2. do 2 f_equal. lia.
Qed.

(** X6: the limit does not hold for requests that overlap.  With a limit of
    at least 1, requests for one key that all arrive, inside the window the
    first one opens, before any of them has finished are all admitted,
    however many they are; once their responses have finished and been
    counted, the record's count is their number. *)
Theorem overlapping_requests_all_admitted p request t0 ts code w :
  let key := keyGenerator p request in
  let n := S (length ts) in
  let s := run (arrivals p request 0 (t0 :: ts) ++ finishes 0 n code) (idle w) in
  0 < max p →
  lookupLive w t0 key = None →
  Forall (λ t, t < t0 + windowMs p) ts →
  shouldCount p code = true →
  (∀ i, (i < n)%nat → admitted s i = true)
  ∧ record (s_world s) key
    = Some {| count := Z.of_nat n; resetTime := t0 + windowMs p |}.
Proof.
  intros key n s Hmax Hfresh Hall Hcount. subst s n key.
  rewrite run_app. simpl arrivals. rewrite run_cons.
  pose proof (middleware_admit p request t0 w freshReply _ _ _
                (observe_fresh p _ _ _ Hfresh) ltac:(simpl; lia)) as M.
  set (s1 := step (idle w) (Arrive 0 p request t0)).
  assert (rateLimitStore (s_world s1) !! keyGenerator p request = Some (length (heap w))
          ∧ heap (s_world s1) !! length (heap w)
            = Some {| count := 0; resetTime := t0 + windowMs p |}
          ∧ s_pending s1 !! 0%nat
            = Some {| l_policy := p; l_key := keyGenerator p request;
                      l_data := length (heap w) |}
          ∧ admitted s1 0 = true) as (Hk1 & Hr1 & Hp1 & Ha1).
  { unfold s1, admitted. simpl. rewrite M. simpl. rewrite !lookup_insert_eq.
    split_and!; try done.
    - by rewrite lookup_app_r, Nat.sub_diag by lia.
    - by rewrite sent_oldHeaders, sent_stdHeaders. }
  destruct (run_arrivals p request ts 1 s1 _ _ Hmax Hk1 Hr1 Hall)
    as (Hk2 & Hh2 & Hnew & Hold).
  set (s2 := run (arrivals p request 1 ts) s1) in *.
  assert (∀ i, (i < S (length ts))%nat →
            s_pending s2 !! i
            = Some {| l_policy := p; l_key := keyGenerator p request;
                      l_data := length (heap w) |}
            ∧ admitted s2 i = true) as Hall2.
  { intros [|i] Hi.
    - destruct (Hold 0%nat ltac:(lia)) as [Hp Hr]. split; [by rewrite Hp|].
      unfold admitted in *. by rewrite Hr.
    - apply (Hnew i). lia. }
  split.
  - intros i Hi. rewrite admitted_finishes by apply finishes_isFinish.
    by apply Hall2.
  - destruct (run_finishes p (keyGenerator p request) code (S (length ts)) 0 s2
                (length (heap w)) 0 (t0 + windowMs p) Hcount Hk2) as [Hk3 Hr3].
    { by rewrite Hh2. }
    { intros i Hi. simpl. by apply Hall2. }
    apply record_Some. eexists. split; [exact Hk3|]. rewrite Hr3. do 2 f_equal.
Qed.

Lemma overlapping_requests_all_admitted_witness :
  (∀ i, (i < 4)%nat →
     admitted (run (arrivals onePolicy client 0 [0; 5; 10; 15] ++ finishes 0 4 200)
                 (idle emptyWorld)) i = true)
  ∧ record (s_world (run (arrivals onePolicy client 0 [0; 5; 10; 15] ++ finishes 0 4 200)
                       (idle emptyWorld))) "1.2.3.4"
    = Some {| count := 4; resetTime := 60000 |}.
Proof.
  apply (overlapping_requests_all_admitted onePolicy client 0 [5; 10; 15] 200 emptyWorld).
  - simpl. lia.
  - reflexivity.
  - repeat (apply Forall_cons_2; [simpl; lia|]). apply Forall_nil_2.
  - reflexivity.
Defined.

(** ** A listener that outlives its window *)

(** X7: when the response of a request finishes only after the window of
    the record it read has ended, its listener puts that expired record back
    under the key, whatever record the key has by then.  The count of the
    key's current window is thereby lost: the next request for the key finds
    no live record, starts from count 0 and, with a limit of at least 1, is
    admitted. *)
Theorem late_finish_discards_current_window l code w d p' request' now' rep :
  heap w !! l_data l = Some d →
  resetTime d ≤ now' →
  shouldCount (l_policy l) code = true →
  keyGenerator p' request' = l_key l →
  0 < max p' →
  record (onFinish l code w) (l_key l)
    = Some {| count := count d + 1; resetTime := resetTime d |}
  ∧ (observe p' (l_key l) now' (onFinish l code w)).2
    = {| count := 0; resetTime := now' + windowMs p' |}
  ∧ is_Some (listener (rateLimitMiddleware p' request' now' (onFinish l code w) rep)).
Proof.
  intros Hd Hexp Hcount Hkey Hmax. destruct l as [p key r]. simpl in *. subst key.
  set (key := keyGenerator p' request') in *.
  destruct (onFinish_counted p key r code w d Hcount Hd) as [Hk Hr].
  assert (record (onFinish {| l_policy := p; l_key := key; l_data := r |} code w) key
          = Some {| count := count d + 1; resetTime := resetTime d |}) as Hrec
    by (apply record_Some; eauto).
  assert (lookupLive (onFinish {| l_policy := p; l_key := key; l_data := r |} code w)
            now' key = None) as HL
    by (eapply lookupLive_expired; [exact Hrec | done]).
  pose proof (observe_fresh p' key now' _ HL) as E.
  split; [done|]. split; [by rewrite E|].
  rewrite (middleware_admit _ _ _ _ _ _ _ _ E) by (simpl; lia). by eexists.
Qed.

(** Request 1 arrives at 0 and is slow; request 2 arrives in the next
    window and is counted, which fills the limit of 1; then request 1
    finishes. *)
Lemma late_finish_discards_current_window_witness :
  let w := s_world (run [Arrive 1 onePolicy client 0; Arrive 2 onePolicy client 60001;
                         Finish 2 200] (idle emptyWorld)) in
  let l := {| l_policy := onePolicy; l_key := "1.2.3.4"; l_data := 0%nat |} in
  record w "1.2.3.4" = Some {| count := 1; resetTime := 120001 |}
  ∧ listener (rateLimitMiddleware onePolicy client 60002 w freshReply) = None
  ∧ is_Some (listener (rateLimitMiddleware onePolicy client 60002 (onFinish l 200 w)
                         freshReply)).
Proof.
  intros w l. split; [vm_compute; reflexivity|]. split; [vm_compute; reflexivity|].
  destruct (late_finish_discards_current_window l 200 w {| count := 0; resetTime := 60000 |}
              onePolicy client 60002 freshReply) as (_ & _ & H).
  - vm_compute. reflexivity.
  - simpl. lia.
  - reflexivity.
  - reflexivity.
  - simpl. lia.
  - exact H.
Defined.

(** ** One request through two instances *)

(** X8: a request that passes two instances of the middleware in one hook
    chain (the global [preHandler] hook and a route's own [preHandler], as
    for [POST /api/v1/todos]) and is admitted by both is counted twice on the
    one record of its key; the headers the client sees are those of the
    second instance. *)
Theorem request_through_two_instances p1 p2 request now code w w1 r d :
  let k := keyGenerator p1 request in
  let lc := runHooks [("global", rateLimitMiddleware p1); ("route", rateLimitMiddleware p2)]
              request now w freshReply in
  keyGenerator p2 request = k →
  observe p1 k now w = (w1, r, d) →
  now < resetTime d →
  count d < max p1 → count d < max p2 →
  shouldCount p1 code = true → shouldCount p2 code = true →
  sent (lc_reply lc) = false
  ∧ length (lc_listeners lc) = 2%nat
  ∧ record (finishAll (lc_listeners lc) code (lc_world lc)) k
    = Some {| count := count d + 2; resetTime := resetTime d |}
  ∧ (standardHeaders p2 = true →
     headers (lc_reply lc) !! "RateLimit-Limit" = Some (HStr (toString (max p2)))
     ∧ headers (lc_reply lc) !! "RateLimit-Remaining"
       = Some (HStr (toString (max p2 - count d - 1)))).
Proof.
  intros k lc Hkey E Hlive Hc1 Hc2 Hcount1 Hcount2. subst lc k.
  pose proof (middleware_admit p1 request now w freshReply _ _ _ E Hc1) as M1.
  assert (lookupLive w1 now (keyGenerator p2 request) = Some (r, d)) as HL.
  { rewrite Hkey. apply lookupLive_Some.
    destruct (observe_record _ _ _ _ _ _ _ E) as [(? & ? & _)|(_ & ? & ? & _)]; done. }
  set (rep1 := oldHeaders p1 (toString (max p1 - count d - 1)) d
                 (stdHeaders p1 (toString (max p1 - count d - 1)) d freshReply)) in *.
  assert (sent rep1 = false) as Hs1 by (unfold rep1; by rewrite sent_oldHeaders, sent_stdHeaders).
  pose proof (middleware_admit p2 request now w1 rep1 _ _ _
                (observe_live p2 _ _ _ _ _ HL) Hc2) as M2.
  set (rep2 := oldHeaders p2 (toString (max p2 - count d - 1)) d
                 (stdHeaders p2 (toString (max p2 - count d - 1)) d rep1)) in *.
  assert (sent rep2 = false) as Hs2
    by (unfold rep2; by rewrite sent_oldHeaders, sent_stdHeaders).
  cbn [runHooks]. rewrite M1. cbn [reply world listener]. rewrite Hs1, M2.
  cbn [reply world listener]. rewrite Hs2.
  cbn [lc_reply lc_world lc_listeners option_list app length].
  split; [done|]. split; [done|].
  unfold finishAll. rewrite Hkey. simpl foldl.
  apply lookupLive_Some in HL as (Hk & Hr & _).
  destruct (onFinish_counted p1 (keyGenerator p1 request) r code (sweep now w1) d
              Hcount1 Hr) as [Hk1 Hr1].
  match goal with |- context [onFinish _ code (onFinish ?l1 code ?w2)] =>
    destruct (onFinish_counted p2 (keyGenerator p1 request) r code (onFinish l1 code w2) _
                Hcount2 Hr1) as [Hk2 Hr2]
  end.
  split.
  - apply record_Some. exists r. split; [done|]. rewrite Hr2. simpl. do 2 f_equal. lia.
  - intros Hs. unfold rep2.
    by destruct (std_after_old p2 (toString (max p2 - count d - 1))
                   (toString (max p2 - count d - 1)) d rep1 Hs) as (? & ? & _).
Qed.

(** The default instance as global hook, the strict instance on the route. *)
Lemma request_through_two_instances_witness :
  record (finishAll
            (lc_listeners (runHooks [("global", rateLimitMiddleware (resolve noOptions));
                                     ("route", rateLimitMiddleware (resolve strictOptions))]
                             client 0 emptyWorld freshReply)) 201
            (lc_world (runHooks [("global", rateLimitMiddleware (resolve noOptions));
                                 ("route", rateLimitMiddleware (resolve strictOptions))]
                         client 0 emptyWorld freshReply))) "1.2.3.4"
  = Some {| count := 2; resetTime := 900000 |}.
Proof.
  destruct (request_through_two_instances (resolve noOptions) (resolve strictOptions)
              client 0 201 emptyWorld
              (observe (resolve noOptions) "1.2.3.4" 0 emptyWorld).1.1 0%nat
              {| count := 0; resetTime := 900000 |}) as (_ & _ & H & _).
  - reflexivity.
  - vm_compute. reflexivity.
  - simpl. lia.
  - simpl. lia.
  - simpl. lia.
  - reflexivity.
  - reflexivity.
  - exact H.
Defined.

(** ** The sweep *)

Lemma liveData_later h t1 t2 r :
  t1 ≤ t2 → is_Some (liveData h t2 r) → is_Some (liveData h t1 r).
Proof.
  intros Ht [d Hd]. apply liveData_Some in Hd as [Hr Hlive].
  exists d. apply liveData_Some. split; [done | lia].
Qed.

Lemma sweep_sweep t1 t2 w : t1 ≤ t2 → sweep t2 (sweep t1 w) = sweep t2 w.
Proof.
  intros Ht. unfold sweep. simpl. f_equal.
  rewrite map_filter_filter. apply map_filter_ext. intros k r Hk. simpl.
  split; [by intros [? _] | intros H; split; [done | by eapply liveData_later]].
Qed.

(** X9: a sweep is not observable.  Whether or not the expired entries
    were removed at some earlier time (by any other request), the middleware
    answers a request in the same way and leaves the same store. *)
Theorem earlier_sweep_unobservable p request t1 now w rep :
  t1 ≤ now →
  rateLimitMiddleware p request now (sweep t1 w) rep = rateLimitMiddleware p request now w rep.
Proof.
  intros Ht. unfold rateLimitMiddleware, observe. by rewrite sweep_sweep.
Qed.

Lemma earlier_sweep_unobservable_witness :
  rateLimitMiddleware scenarioPolicy client 63000 (sweep 61000 afterThree) freshReply
  = rateLimitMiddleware scenarioPolicy client 63000 afterThree freshReply.
Proof.
  apply (earlier_sweep_unobservable scenarioPolicy client 61000 63000 afterThree freshReply).
  lia.
Defined.

(** X10: the map grows by at most one entry per request, and after a
    request every entry except possibly that of the request's own key is
    live: expired entries never pile up across requests. *)
Theorem store_stays_small p request now w rep :
  let w' := world (rateLimitMiddleware p request now w rep) in
  (size (rateLimitStore w') ≤ S (size (rateLimitStore w)))%nat
  ∧ ∀ k r, k ≠ keyGenerator p request → rateLimitStore w' !! k = Some r →
      rateLimitStore w !! k = Some r ∧ is_Some (liveData (heap w') now r).
Proof.
  intros w'. subst w'. split.
  - rewrite world_middleware.
    assert (size (rateLimitStore (sweep now w)) ≤ size (rateLimitStore w))%nat as Hsz
      by apply map_subseteq_size, map_filter_subseteq.
    destruct (lookupLive w now (keyGenerator p request)) as [[r d]|] eqn:HL.
    + rewrite (observe_live _ _ _ _ _ _ HL). simpl in *. lia.
    + rewrite (observe_fresh _ _ _ _ HL). simpl fst. simpl rateLimitStore.
      rewrite map_size_insert.
      destruct (filter _ (rateLimitStore w) !! keyGenerator p request); simpl in *; lia.
  - intros k r Hne Hk. rewrite middleware_other_keys in Hk by done.
    destruct (rateLimitStore w !! k) as [r'|] eqn:Hk'; simpl in Hk; [|done].
    destruct (liveData (heap w) now r') as [d|] eqn:Hd; simpl in Hk; [|done].
    injection Hk as <-. split; [done|]. exists d.
    apply liveData_Some in Hd as [Hr Hlive]. apply liveData_Some. split; [|done].
    rewrite world_middleware.
    destruct (lookupLive w now (keyGenerator p request)) as [[r0 d0]|] eqn:HL.
    + by rewrite (observe_live _ _ _ _ _ _ HL).
    + rewrite (observe_fresh _ _ _ _ HL). simpl. rewrite lookup_app_l; [done|].
      by eapply lookup_lt_Some.
Qed.

(** ** Legacy headers and the end of the window *)

Lemma ceilDiv_bounds x : 1000 * (ceilDiv x 1000 - 1) < x ≤ 1000 * ceilDiv x 1000.
Proof.
  unfold ceilDiv.
  pose proof (Z.mul_div_le (- x) 1000 ltac:(lia)).
  pose proof (Z.mul_succ_div_gt (- x) 1000 ltac:(lia)). lia.
Qed.

(** X11: with legacy headers enabled every reply of the middleware carries
    [X-RateLimit-Limit] and [X-RateLimit-Remaining] with the values of the
    standard headers and [X-RateLimit-Reset] with the reset time in whole
    epoch seconds rounded up, so never earlier than the true reset and less
    than a second later; with legacy headers disabled the middleware leaves
    the three headers as it found them. *)
Theorem legacy_headers_follow_record p request now w rep :
  let res := rateLimitMiddleware p request now w rep in
  ∃ d, record (world res) (keyGenerator p request) = Some d
    ∧ (legacyHeaders p = true →
         headers (reply res) !! "X-RateLimit-Limit" = Some (HStr (toString (max p)))
         ∧ headers (reply res) !! "X-RateLimit-Remaining"
           = Some (HStr (toString (Z.max 0 (max p - (count d + 1)))))
         ∧ ∃ seconds,
             headers (reply res) !! "X-RateLimit-Reset" = Some (HStr (toString seconds))
             ∧ 1000 * (seconds - 1) < resetTime d ≤ 1000 * seconds)
    ∧ (legacyHeaders p = false →
         headers (reply res) !! "X-RateLimit-Limit" = headers rep !! "X-RateLimit-Limit"
         ∧ headers (reply res) !! "X-RateLimit-Remaining"
           = headers rep !! "X-RateLimit-Remaining"
         ∧ headers (reply res) !! "X-RateLimit-Reset" = headers rep !! "X-RateLimit-Reset").
Proof.
  intros res. subst res.
  destruct (observe p (keyGenerator p request) now w) as [[w1 r] d] eqn:E.
  assert (record w1 (keyGenerator p request) = Some d) as Hrec.
  { apply record_Some. exists r.
    destruct (observe_record _ _ _ _ _ _ _ E) as [(? & ? & _)|(_ & ? & ? & _)]; done. }
  exists d.
  destruct (Z.le_gt_cases (max p) (count d)) as [Hc|Hc].
  - rewrite (middleware_reject _ _ _ _ _ _ _ _ E Hc). simpl. split; [done|].
    replace (Z.max 0 (max p - (count d + 1))) with 0 by lia.
    unfold oldHeaders, stdHeaders. split; intros ->.
    + simpl. rewrite !lookup_insert_ne by done. simplify_map_eq.
      split_and!; try done. eexists. split; [done|]. apply ceilDiv_bounds.
    + destruct (standardHeaders p); simpl; by simplify_map_eq.
  - rewrite (middleware_admit _ _ _ _ _ _ _ _ E Hc). simpl. split; [done|].
    replace (Z.max 0 (max p - (count d + 1))) with (max p - count d - 1) by lia.
    unfold oldHeaders, stdHeaders. split; intros ->.
    + simpl. simplify_map_eq.
      split_and!; try done. eexists. split; [done|]. apply ceilDiv_bounds.
    + destruct (standardHeaders p); simpl; by simplify_map_eq.
Qed.

(** X12: the window is closed at its start and open at its end.  One
    millisecond before [resetTime] the middleware still works on the key's
    record; at [resetTime] exactly the record is gone and the request opens
    a new window with count 0. *)
Theorem window_end_is_exclusive p request w r d rep :
  let key := keyGenerator p request in
  rateLimitStore w !! key = Some r →
  heap w !! r = Some d →
  observe p key (resetTime d - 1) w = (sweep (resetTime d - 1) w, r, d)
  ∧ (observe p key (resetTime d) w).2
    = {| count := 0; resetTime := resetTime d + windowMs p |}
  ∧ rateLimitStore (world (rateLimitMiddleware p request (resetTime d) w rep)) !! key
    = Some (length (heap w)).
Proof.
  intros key Hk Hr. split_and!.
  - apply observe_live, lookupLive_Some. split_and!; [done | done | lia].
  - assert (lookupLive w (resetTime d) key = None) as HL
      by (eapply (lookupLive_expired _ _ _ d); [apply record_Some; eauto | lia]).
    by rewrite (observe_fresh _ _ _ _ HL).
  - assert (lookupLive w (resetTime d) key = None) as HL
      by (eapply (lookupLive_expired _ _ _ d); [apply record_Some; eauto | lia]).
    rewrite world_middleware. fold key. rewrite (observe_fresh _ _ _ _ HL). simpl.
    by rewrite lookup_insert_eq.
Qed.

Lemma window_end_is_exclusive_witness :
  observe scenarioPolicy "1.2.3.4" 59999 afterThree
    = (sweep 59999 afterThree, 0%nat, {| count := 3; resetTime := 60000 |})
  ∧ (observe scenarioPolicy "1.2.3.4" 60000 afterThree).2
    = {| count := 0; resetTime := 120000 |}.
Proof.
  destruct (window_end_is_exclusive scenarioPolicy client afterThree 0%nat
              {| count := 3; resetTime := 60000 |} freshReply) as (H1 & H2 & _).
  - vm_compute. reflexivity.
  - vm_compute. reflexivity.
  - split; [exact H1 | exact H2].
Defined.

(** * The memory store of the task description *)

Lemma task05_increment_fresh key now (store : gmap string RateLimitData) :
  (∀ d, store !! key = Some d → resetTime d < now) →
  Task05.increment key now store
  = (<[key := {| count := 1; resetTime := now + 60000 |}]> store,
     {| Task05.totalHits := 1; Task05.timeToExpire := now + 60000 - now |}).
Proof.
  intros H. unfold Task05.increment. destruct (store !! key) as [d|]; [|done].
  specialize (H d eq_refl). by destruct (Z.ltb_spec (resetTime d) now); [|lia].
Qed.

Lemma task05_increment_live key now (store : gmap string RateLimitData) d :
  store !! key = Some d → now ≤ resetTime d →
  Task05.increment key now store
  = (<[key := {| count := count d + 1; resetTime := resetTime d |}]> store,
     {| Task05.totalHits := count d + 1; Task05.timeToExpire := resetTime d - now |}).
Proof.
  intros Hk H. unfold Task05.increment. rewrite Hk.
  by destruct (Z.ltb_spec (resetTime d) now); [lia|].
Qed.

Lemma task05_increment_cases key now (store : gmap string RateLimitData) :
  (∃ d, store !! key = Some d ∧ now ≤ resetTime d)
  ∨ (∀ d, store !! key = Some d → resetTime d < now).
Proof.
  destruct (store !! key) as [d|]; [|right; by intros ? [=]].
  destruct (Z.le_gt_cases now (resetTime d)); [left; eauto | right; intros ? [= <-]; lia].
Qed.

(** X13: the memory store always works with a window of one minute, whatever
    [windowMs] the middleware was configured with.  If no record ends later
    than a minute after [now], then after an [increment] at a later time
    [now'] the same holds for [now'], and the [timeToExpire] it returns is
    between 0 and 60000 ms. *)
Theorem task05_window_is_one_minute key now now' (store : gmap string RateLimitData) :
  Task05.windowsWithin now store →
  now ≤ now' →
  0 ≤ Task05.timeToExpire (Task05.increment key now' store).2 ≤ 60000
  ∧ Task05.windowsWithin now' (Task05.increment key now' store).1.
Proof.
  intros Hw Hnow.
  destruct (task05_increment_cases key now' store) as [(d & Hk & Hlive)|Hexp].
  - rewrite (task05_increment_live _ _ _ _ Hk Hlive). simpl.
    pose proof (Hw _ _ Hk). split; [lia|].
    intros k d'. destruct (decide (k = key)) as [->|Hne].
    + rewrite lookup_insert_eq. intros [= <-]. simpl. lia.
    + rewrite lookup_insert_ne by done. intros Hk'. pose proof (Hw _ _ Hk'). lia.
  - rewrite (task05_increment_fresh _ _ _ Hexp). simpl. split; [lia|].
    intros k d'. destruct (decide (k = key)) as [->|Hne].
    + rewrite lookup_insert_eq. intros [= <-]. simpl. lia.
    + rewrite lookup_insert_ne by done. intros Hk'. pose proof (Hw _ _ Hk'). lia.
Qed.

Lemma task05_window_is_one_minute_witness :
  0 ≤ Task05.timeToExpire
        (Task05.increment "rate_limit:1.2.3.4" 5000
           (Task05.increment "rate_limit:1.2.3.4" 0 ∅).1).2 ≤ 60000.
Proof.
  apply (task05_window_is_one_minute "rate_limit:1.2.3.4" 0 5000
           (Task05.increment "rate_limit:1.2.3.4" 0 ∅).1).
  - intros k d.
    change (Task05.increment "rate_limit:1.2.3.4" 0 ∅).1
      with (<["rate_limit:1.2.3.4" := {| count := 1; resetTime := 60000 |}]>
              (∅ : gmap string RateLimitData)).
    destruct (decide (k = "rate_limit:1.2.3.4")) as [->|Hne].
    + rewrite lookup_insert_eq. intros [= <-]. simpl. lia.
    + rewrite lookup_insert_ne, lookup_empty by done. discriminate.
  - lia.
Defined.

(** X14: the store's counters never become negative: [increment],
    [decrement] and [resetKey] keep every count at 0 or more ([decrement]
    stops at 0), and [increment] always reports at least one hit. *)
Theorem task05_counts_stay_nonnegative key now (store : gmap string RateLimitData) :
  Task05.nonneg store →
  Task05.nonneg (Task05.increment key now store).1
  ∧ 1 ≤ Task05.totalHits (Task05.increment key now store).2
  ∧ Task05.nonneg (Task05.decrement key store)
  ∧ Task05.nonneg (Task05.resetKey key store).
Proof.
  intros Hn. split_and!.
  - destruct (task05_increment_cases key now store) as [(d & Hk & Hlive)|Hexp].
    + rewrite (task05_increment_live _ _ _ _ Hk Hlive). simpl.
      pose proof (Hn _ _ Hk). intros k d'. destruct (decide (k = key)) as [->|Hne].
      * rewrite lookup_insert_eq. intros [= <-]. simpl. lia.
      * rewrite lookup_insert_ne by done. apply Hn.
    + rewrite (task05_increment_fresh _ _ _ Hexp). simpl.
      intros k d'. destruct (decide (k = key)) as [->|Hne].
      * rewrite lookup_insert_eq. intros [= <-]. simpl. lia.
      * rewrite lookup_insert_ne by done. apply Hn.
  - destruct (task05_increment_cases key now store) as [(d & Hk & Hlive)|Hexp].
    + rewrite (task05_increment_live _ _ _ _ Hk Hlive). simpl.
      pose proof (Hn _ _ Hk). lia.
    + by rewrite (task05_increment_fresh _ _ _ Hexp).
  - unfold Task05.decrement. destruct (store !! key) as [d|] eqn:Hk; [|done].
    destruct (Z.ltb_spec 0 (count d)); [|done].
    intros k d'. destruct (decide (k = key)) as [->|Hne].
    + rewrite lookup_insert_eq. intros [= <-]. simpl. lia.
    + rewrite lookup_insert_ne by done. apply Hn.
  - unfold Task05.resetKey. intros k d Hk.
    apply lookup_delete_Some in Hk as [_ Hk]. by eapply Hn.
Qed.

Lemma task05_counts_stay_nonnegative_witness :
  Task05.nonneg (Task05.decrement "k" (Task05.decrement "k" (Task05.increment "k" 0 ∅).1)).
Proof.
  apply (task05_counts_stay_nonnegative "k" 0).
  apply (task05_counts_stay_nonnegative "k" 0).
  apply (task05_counts_stay_nonnegative "k" 0 ∅).
  intros k d H. rewrite lookup_empty in H. discriminate.
Defined.

(** X15: [decrement] undoes [increment].  On a key with a live record the
    store is exactly as before; in every case the next [increment] in the
    same window reports the same number of hits as the undone one. *)
Theorem task05_decrement_undoes_increment key now now' (store : gmap string RateLimitData) :
  Task05.nonneg store →
  now ≤ now' ≤ now + Task05.timeToExpire (Task05.increment key now store).2 →
  (∀ d, store !! key = Some d → now ≤ resetTime d →
     Task05.decrement key (Task05.increment key now store).1 = store)
  ∧ Task05.totalHits
      (Task05.increment key now' (Task05.decrement key (Task05.increment key now store).1)).2
    = Task05.totalHits (Task05.increment key now store).2.
Proof.
  intros Hn Hnow.
  destruct (task05_increment_cases key now store) as [(d & Hk & Hlive)|Hexp].
  - rewrite (task05_increment_live _ _ _ _ Hk Hlive) in *. simpl in *.
    pose proof (Hn _ _ Hk) as Hd.
    assert (Task05.decrement key
              (<[key := {| count := count d + 1; resetTime := resetTime d |}]> store)
            = store) as Hundo.
    { unfold Task05.decrement. rewrite lookup_insert_eq. simpl.
      destruct (Z.ltb_spec 0 (count d + 1)); [|lia].
      rewrite insert_insert_eq. apply insert_id. rewrite Hk. f_equal.
      destruct d. simpl. f_equal. lia. }
    split; [by intros|]. rewrite Hundo.
    by rewrite (task05_increment_live _ _ _ _ Hk) by lia.
  - rewrite (task05_increment_fresh _ _ _ Hexp) in *. simpl in *.
    split; [intros d Hk ?; specialize (Hexp d Hk); lia|].
    unfold Task05.decrement. rewrite lookup_insert_eq. simpl. rewrite insert_insert_eq.
    erewrite task05_increment_live; [| apply lookup_insert_eq | simpl; lia]. done.
Qed.

Lemma task05_decrement_undoes_increment_witness :
  Task05.totalHits
    (Task05.increment "k" 30000 (Task05.decrement "k" (Task05.increment "k" 0 ∅).1)).2
  = Task05.totalHits (Task05.increment "k" 0 ∅).2.
Proof.
  apply (task05_decrement_undoes_increment "k" 0 30000 ∅).
  - intros k d H. rewrite lookup_empty in H. discriminate.
  - split; [lia|]. vm_compute. discriminate.
Defined.

(** * Authentication *)

Lemma prefix_split pat : ∀ s,
  String.prefix pat s = true → s = pat +:+ dropString (String.length pat) s.
Proof.
  induction pat as [|a pat IH]; intros s H; [reflexivity|].
  destruct s as [|b s]; [discriminate H|]. simpl in H.
  destruct (Ascii.ascii_dec a b) as [->|]; [|discriminate H].
  change (String b s = String b (pat +:+ dropString (String.length pat) s)).
  f_equal. by apply IH.
Qed.

(** A string that starts with the pattern loses exactly that start. *)
Lemma replaceFirst_prefix pat s :
  String.prefix pat s = true →
  replaceFirst pat "" s = dropString (String.length pat) s.
Proof.
  intros H.
  assert (replaceFirst pat "" s
          = if String.prefix pat s then "" +:+ dropString (String.length pat) s
            else match s with
                 | EmptyString => EmptyString
                 | String c s' => String c (replaceFirst pat "" s')
                 end) as -> by (by destruct s).
  by rewrite H.
Qed.

Lemma bearer_token a :
  String.prefix "Bearer " a = true →
  replaceFirst "Bearer " "" a = "demo-token" ↔ a = "Bearer demo-token".
Proof.
  intros H. rewrite (replaceFirst_prefix _ _ H).
  pose proof (prefix_split _ _ H) as Ha. split.
  - intros Hd. rewrite Ha, Hd. reflexivity.
  - intros ->. reflexivity.
Qed.

(** X17: [authMiddleware] lets a request pass exactly when its
    [Authorization] header is [Bearer demo-token], and then attaches the demo
    user with role [user]; every other request, with or without the header,
    is answered 401. *)
Theorem auth_passes_only_the_demo_token req rep :
  Auth.sent rep = false →
  (Auth.sent (Auth.authMiddleware req rep).2 = false
     ↔ Auth.authorization req = Some "Bearer demo-token")
  ∧ (Auth.sent (Auth.authMiddleware req rep).2 = false →
       Auth.user (Auth.authMiddleware req rep).1 = Some Auth.demoUser
       ∧ (Auth.authMiddleware req rep).2 = rep)
  ∧ (Auth.sent (Auth.authMiddleware req rep).2 = true →
       Auth.statusCode (Auth.authMiddleware req rep).2 = 401
       ∧ (Auth.authMiddleware req rep).1 = req).
Proof.
  intros Hopen. unfold Auth.authMiddleware, Auth.parseHeaders.
  destruct (Auth.authorization req) as [a|] eqn:Ha; simpl.
  - destruct (String.prefix "Bearer " a) eqn:Hp; simpl.
    + destruct (String.eqb_spec (replaceFirst "Bearer " "" a) "demo-token") as [Ht|Ht];
        simpl.
      * apply (bearer_token a Hp) in Ht. subst a. rewrite Hopen.
        split_and!; try done.
      * split_and!; try done. split; [done|]. intros [= ->].
        exfalso. apply Ht. reflexivity.
    + split_and!; try done. split; [done|]. intros [= ->].
      vm_compute in Hp. discriminate Hp.
  - split_and!; try done.
Qed.

Lemma auth_passes_only_the_demo_token_witness :
  Auth.sent (Auth.authMiddleware
               {| Auth.authorization := Some "Bearer demo-token"; Auth.user := None |}
               {| Auth.statusCode := 200; Auth.payload := None; Auth.sent := false |}).2
  = false.
Proof.
  apply (auth_passes_only_the_demo_token
           {| Auth.authorization := Some "Bearer demo-token"; Auth.user := None |}
           {| Auth.statusCode := 200; Auth.payload := None; Auth.sent := false |});
    reflexivity.
Defined.

(** X18: [adminAuthMiddleware] never lets a request pass.  [authMiddleware]
    only ever attaches a user with role [user], so a request with the valid
    token is answered 403 and every other request 401, whatever user the
    request carried before. *)
Theorem admin_hook_rejects_everyone req rep :
  Auth.sent rep = false →
  Auth.sent (Auth.adminAuthMiddleware req rep).2 = true
  ∧ Auth.statusCode (Auth.adminAuthMiddleware req rep).2
    = (if bool_decide (Auth.authorization req = Some "Bearer demo-token") then 403 else 401).
Proof.
  intros Hopen. unfold Auth.adminAuthMiddleware.
  destruct (auth_passes_only_the_demo_token req rep Hopen) as (Hiff & Hpass & Hrej).
  destruct (Auth.authMiddleware req rep) as [req1 rep1]. simpl in *.
  destruct (Auth.sent rep1) eqn:Hs.
  - destruct (Hrej eq_refl) as [H401 _]. split; [done|].
    rewrite bool_decide_eq_false_2; [done|]. intros Ha. apply Hiff in Ha. discriminate.
  - destruct (Hpass eq_refl) as [-> _]. simpl.
    rewrite bool_decide_eq_true_2 by (by apply Hiff). done.
Qed.

Lemma admin_hook_rejects_everyone_witness :
  Auth.statusCode
    (Auth.adminAuthMiddleware
       {| Auth.authorization := Some "Bearer demo-token";
          Auth.user := Some {| Auth.id := "root"; Auth.email := None;
                               Auth.role := Some "admin" |} |}
       {| Auth.statusCode := 200; Auth.payload := None; Auth.sent := false |}).2
  = 403.
Proof.
  apply (admin_hook_rejects_everyone
           {| Auth.authorization := Some "Bearer demo-token";
              Auth.user := Some {| Auth.id := "root"; Auth.email := None;
                                   Auth.role := Some "admin" |} |}
           {| Auth.statusCode := 200; Auth.payload := None; Auth.sent := false |}).
  reflexivity.
Defined.

(** * CORS *)

(** X19: outside development [corsMiddleware] sets
    [Access-Control-Allow-Origin] only for a request whose [Origin] is one of
    the two allowed origins, and then to that origin; in development it is
    always [*].  In both cases credentials are allowed, and an [OPTIONS]
    request is answered 204 at once while any other method leaves the reply
    open. *)
Theorem cors_allows_listed_origins development req rep :
  headers rep !! "Access-Control-Allow-Origin" = None →
  sent rep = false →
  let rep' := Cors.corsMiddleware development req rep in
  headers rep' !! "Access-Control-Allow-Origin"
    = (if development then Some (HStr "*")
       else match Cors.origin req with
            | Some o => if bool_decide (o ∈ Cors.allowedOrigins) then Some (HStr o) else None
            | None => None
            end)
  ∧ headers rep' !! "Access-Control-Allow-Credentials" = Some (HStr "true")
  ∧ (Cors.method req = "OPTIONS" → sent rep' = true ∧ statusCode rep' = 204)
  ∧ (Cors.method req ≠ "OPTIONS" → sent rep' = false ∧ statusCode rep' = statusCode rep).
Proof.
  intros Hnone Hopen rep'. subst rep'. unfold Cors.corsMiddleware.
  assert (∀ r : FastifyReply,
            (if String.eqb (Cors.method req) "OPTIONS" then Cors.sendEmpty 204 r else r).(headers)
            = headers r) as Hh by (intros r; by destruct (String.eqb _ _)).
  rewrite !Hh. simpl. split_and!.
  - rewrite !lookup_insert_ne by done.
    destruct development; simpl; [by rewrite lookup_insert_eq|].
    destruct (Cors.origin req) as [o|]; [|done].
    unfold includes. destruct (bool_decide (o ∈ Cors.allowedOrigins)) eqn:Hin.
    + apply bool_decide_eq_true in Hin.
      assert (o ≠ "") as Hne.
      { intros ->. unfold Cors.allowedOrigins in Hin.
        repeat (apply elem_of_cons in Hin as [Hin|Hin]; [discriminate Hin|]).
        by apply elem_of_nil in Hin. }
      apply String.eqb_neq in Hne. rewrite Hne. simpl. by rewrite lookup_insert_eq.
    + by rewrite andb_false_r.
  - by simplify_map_eq.
  - intros ->. simpl. done.
  - intros Hm. apply String.eqb_neq in Hm. rewrite Hm. simpl.
    destruct development; simpl; [done|].
    destruct (Cors.origin req) as [o|]; [|done].
    by destruct (negb (String.eqb o "") && includes Cors.allowedOrigins o).
Qed.

Lemma cors_allows_listed_origins_witness :
  headers (Cors.corsMiddleware false
             {| Cors.method := "GET"; Cors.origin := Some "https://evil.example" |}
             freshReply) !! "Access-Control-Allow-Origin" = None.
Proof.
  apply (cors_allows_listed_origins false
           {| Cors.method := "GET"; Cors.origin := Some "https://evil.example" |}
           freshReply); reflexivity.
Defined.

(** * Pagination *)

Lemma ceilDiv_range n d :
  0 < d → d * (ceilDiv n d - 1) < n ≤ d * ceilDiv n d.
Proof.
  intros Hd. unfold ceilDiv.
  pose proof (Z.mul_div_le (- n) d Hd).
  pose proof (Z.mul_succ_div_gt (- n) d Hd). lia.
Qed.

(** X20: for a limit of at least 1 and a non-negative total,
    [generatePaginationInfo] reports the least number of pages that holds
    all items (0 for no items); [hasNext] says exactly that items remain
    beyond the page the query fetches at [offset = (page - 1) * limit], and
    [hasPrev] that the offset is past the first item. *)
Theorem pagination_agrees_with_offset page limit total :
  1 ≤ limit → 0 ≤ total → 1 ≤ page →
  let info := Todos.generatePaginationInfo page limit total in
  limit * (Todos.totalPages info - 1) < total ≤ limit * Todos.totalPages info
  ∧ (Todos.totalPages info = 0 ↔ total = 0)
  ∧ (Todos.hasNext info = true ↔ Todos.offset page limit + limit < total)
  ∧ (Todos.hasPrev info = true ↔ 0 < Todos.offset page limit).
Proof.
  intros Hl Ht Hp info. subst info. unfold Todos.generatePaginationInfo, Todos.offset.
  simpl. pose proof (ceilDiv_range total limit ltac:(lia)) as Hr.
  set (tp := ceilDiv total limit) in *.
  split; [done|]. split_and!.
  - split; intros H; [rewrite H in Hr; lia | nia].
  - rewrite Z.ltb_lt. split; intros H; nia.
  - rewrite Z.ltb_lt. split; intros H; nia.
Qed.

Lemma pagination_agrees_with_offset_witness :
  Todos.totalPages (Todos.generatePaginationInfo 2 10 25) = 3
  ∧ (Todos.hasNext (Todos.generatePaginationInfo 2 10 25) = true
     ↔ Todos.offset 2 10 + 10 < 25).
Proof.
  destruct (pagination_agrees_with_offset 2 10 25) as (_ & _ & H & _); try lia.
  split; [reflexivity | exact H].
Defined.

(** * The error handler *)

(** X21: the error handler always sends a reply, with status 400 for a
    [ValidationError], 401 for an [UnauthorizedError] and 500 for anything
    else.  Only a [ValidationError] has its message passed on to the client;
    for every other error the reply depends on the error's name alone, so
    neither message nor stack can reach the client. *)
Theorem error_handler_hides_internal_messages e rep :
  let r := Logger.errorLoggerMiddleware e rep in
  Auth.sent r = true
  ∧ (Auth.statusCode r = 400 ↔ Logger.name e = "ValidationError")
  ∧ (Auth.statusCode r = 401 ↔ Logger.name e = "UnauthorizedError")
  ∧ (Auth.statusCode r = 500 ↔
       Logger.name e ≠ "ValidationError" ∧ Logger.name e ≠ "UnauthorizedError")
  ∧ (Logger.name e = "ValidationError" →
       Auth.payload r = Some {| Auth.error := "Validation failed";
                                Auth.message := Logger.message e |})
  ∧ (Logger.name e ≠ "ValidationError" →
       ∀ e' rep', Logger.name e' = Logger.name e →
         Logger.errorLoggerMiddleware e' rep' = r).
Proof.
  intros r. subst r. unfold Logger.errorLoggerMiddleware.
  destruct (String.eqb_spec (Logger.name e) "ValidationError") as [Hv|Hv];
    [|destruct (String.eqb_spec (Logger.name e) "UnauthorizedError") as [Hu|Hu]];
    simpl; split_and!;
    try done;
    try (split; intros H; first [discriminate H | congruence | done
                                | destruct H; congruence]).
  - intros _ e' rep' ->. rewrite Hu. reflexivity.
  - intros _ e' rep' He.
    destruct (String.eqb_spec (Logger.name e') "ValidationError"); [congruence|].
    destruct (String.eqb_spec (Logger.name e') "UnauthorizedError"); [congruence|].
    reflexivity.
Qed.

(** * The remaining quota in the headers *)

(** C4, as the spec states it, fails: of two requests for a fresh key that
    arrive before either has finished, under limit 3, the second is the
    second hit of the window ([totalHits = 2], so [max(0, 3 - 2) = 1]), but
    its [RateLimit-Remaining] is 2, the same as for the first. *)
Lemma remaining_of_overlapping_counterexample :
  let s := run [Arrive 1 scenarioPolicy client 0; Arrive 2 scenarioPolicy client 0]
             (idle emptyWorld) in
  let totalHits :=
    (incrementPerSpec 60000 "1.2.3.4" 0 (incrementPerSpec 60000 "1.2.3.4" 0 ∅).1).2.1 in
  totalHits = 2
  ∧ toString (Z.max 0 (max scenarioPolicy - totalHits)) = "1"
  ∧ (remainingOf <$> s_replies s !! 1%nat) = Some (Some (HStr "2"))
  ∧ (remainingOf <$> s_replies s !! 2%nat) = Some (Some (HStr "2"))
  ∧ (remainingOf <$> s_replies s !! 2%nat)
    ≠ Some (Some (HStr (toString (Z.max 0 (max scenarioPolicy - totalHits))))).
Proof.
  intros s totalHits.
  assert (totalHits = 2) as Ht by (vm_compute; reflexivity).
  assert ((remainingOf <$> s_replies s !! 2%nat) = Some (Some (HStr "2"))) as H2
    by (vm_compute; reflexivity).
  split_and!.
  - exact Ht.
  - rewrite Ht. vm_compute. reflexivity.
  - vm_compute. reflexivity.
  - exact H2.
  - rewrite H2, Ht. vm_compute. intros H. discriminate H.
Qed.

(** The standard headers of a served request, from the record it read. *)
Lemma serve_headers p request now code w w1 r d :
  standardHeaders p = true →
  observe p (keyGenerator p request) now w = (w1, r, d) →
  headers (serve p request now code w).2 !! "RateLimit-Limit"
    = Some (HStr (toString (max p)))
  ∧ headers (serve p request now code w).2 !! "RateLimit-Remaining"
    = Some (HStr (toString (Z.max 0 (max p - (count d + 1)))))
  ∧ headers (serve p request now code w).2 !! "RateLimit-Reset"
    = Some (HIsoDate (resetTime d)).
Proof.
  intros Hs E.
  destruct (Z.le_gt_cases (max p) (count d)) as [Hc|Hc].
  - rewrite (serve_reject _ _ _ _ _ _ _ _ E Hc). simpl.
    rewrite !lookup_insert_ne by done.
    replace (Z.max 0 (max p - (count d + 1))) with 0 by lia.
    rewrite toString_zero. by apply std_after_old.
  - rewrite (serve_admit _ _ _ _ _ _ _ _ E Hc). simpl.
    replace (Z.max 0 (max p - (count d + 1))) with (max p - count d - 1) by lia.
    by apply std_after_old.
Qed.

(** Counted requests in the window of a live record with count [c]: request
    [i] carries the headers of hit number [c + i + 1]. *)
Lemma serveAll_window_headers p request reqs :
  ∀ w r c R,
  standardHeaders p = true →
  rateLimitStore w !! keyGenerator p request = Some r →
  heap w !! r = Some {| count := c; resetTime := R |} →
  Forall (λ nc : Z * Z, nc.1 < R ∧ shouldCount p nc.2 = true) reqs →
  ∀ (i : nat) rep, (serveAll p request reqs w).2 !! i = Some rep →
    headers rep !! "RateLimit-Limit" = Some (HStr (toString (max p)))
    ∧ headers rep !! "RateLimit-Remaining"
      = Some (HStr (toString (Z.max 0 (max p - (c + Z.of_nat i + 1)))))
    ∧ headers rep !! "RateLimit-Reset" = Some (HIsoDate R).
Proof.
  induction reqs as [|[now code] reqs IH]; intros w r c R Hs Hk Hr Hall i rep Hi.
  - done.
  - apply Forall_cons in Hall as [[Hnow Hcount] Hall]. simpl in Hnow, Hcount.
    assert (lookupLive w now (keyGenerator p request)
            = Some (r, {| count := c; resetTime := R |})) as HL
      by (by apply lookupLive_Some).
    pose proof (serve_headers p request now code w _ _ _ Hs (observe_live p _ _ _ _ _ HL))
      as Hhead. simpl in Hhead.
    simpl in Hi.
    destruct (Z.lt_ge_cases c (max p)) as [Hc|Hc].
    + destruct (serve_counted_live p request now code w r c R) as
        (w1 & rep1 & Hserve & Hk1 & Hr1 & _); try done.
      rewrite Hserve in Hi, Hhead.
      destruct (serveAll p request reqs w1) as [w2 reps] eqn:Hrest. simpl in Hi.
      destruct i as [|i]; simpl in Hi.
      * injection Hi as <-. simpl in Hhead. by rewrite Z.add_0_r.
      * pose proof (IH w1 r (c + 1) R Hs Hk1 Hr1 Hall i rep) as H.
        rewrite Hrest in H. specialize (H Hi).
        replace (c + Z.of_nat (S i) + 1) with (c + 1 + Z.of_nat i + 1) by lia. exact H.
    + destruct (serve_rejected_live p request now code w r c R) as
        (rep1 & Hserve & _); try done.
      rewrite Hserve in Hi, Hhead.
      destruct (serveAll p request reqs (sweep now w)) as [w2 reps] eqn:Hrest. simpl in Hi.
      destruct i as [|i]; simpl in Hi.
      * injection Hi as <-. simpl in Hhead. by rewrite Z.add_0_r.
      * pose proof (IH (sweep now w) r c R Hs) as H. rewrite Hrest in H.
        specialize (H (sweep_keeps_live _ _ _ _ _ Hk Hr Hnow) Hr Hall i rep Hi).
        replace (Z.max 0 (max p - (c + Z.of_nat (S i) + 1)))
          with (Z.max 0 (max p - (c + Z.of_nat i + 1))) by lia.
        exact H.
Qed.

(** C4, amended: on every request the stage processes, admitted or
    rejected, with standard headers enabled the reply carries
    [RateLimit-Limit] equal to the limit printed as an integer,
    [RateLimit-Reset] equal to the ISO time of the [resetTime] of the key's
    record, and [RateLimit-Remaining] equal to [max(0, max - (count + 1))],
    where [count] is the count of the key's record at arrival: only the
    requests of the window whose responses have finished and been counted.
    When every request of a window has finished and been counted before the
    next arrives, that is [max(0, max - totalHits)] with [totalHits] the
    ordinal of the request in its window. *)
Theorem remaining_counts_finished_requests p request now w rep t0 c0 rest :
  let key := keyGenerator p request in
  standardHeaders p = true →
  (∃ d, record (world (rateLimitMiddleware p request now w rep)) key = Some d
     ∧ headers (reply (rateLimitMiddleware p request now w rep)) !! "RateLimit-Limit"
       = Some (HStr (toString (max p)))
     ∧ headers (reply (rateLimitMiddleware p request now w rep)) !! "RateLimit-Remaining"
       = Some (HStr (toString (Z.max 0 (max p - (count d + 1)))))
     ∧ headers (reply (rateLimitMiddleware p request now w rep)) !! "RateLimit-Reset"
       = Some (HIsoDate (resetTime d)))
  ∧ (lookupLive w t0 key = None →
     shouldCount p c0 = true →
     Forall (λ nc : Z * Z, nc.1 < t0 + windowMs p ∧ shouldCount p nc.2 = true) rest →
     ∀ (i : nat) rep', (serveAll p request ((t0, c0) :: rest) w).2 !! i = Some rep' →
       headers rep' !! "RateLimit-Limit" = Some (HStr (toString (max p)))
       ∧ headers rep' !! "RateLimit-Remaining"
         = Some (HStr (toString (Z.max 0 (max p - Z.of_nat (S i)))))
       ∧ headers rep' !! "RateLimit-Reset" = Some (HIsoDate (t0 + windowMs p))).
Proof.
  intros key Hs. subst key. split; [by apply headers_of_reply|].
  intros Hfresh Hc0 Hall i rep' Hi.
  pose proof (observe_fresh p _ t0 w Hfresh) as E.
  pose proof (serve_headers p request t0 c0 w _ _ _ Hs E) as Hhead. simpl in Hhead.
  simpl in Hi.
  destruct (Z.lt_ge_cases 0 (max p)) as [Hmax|Hmax].
  - destruct (serve_counted_fresh p request t0 c0 w Hfresh Hmax Hc0) as
      (w1 & rep1 & r & Hserve & Hk1 & Hr1 & _).
    rewrite Hserve in Hi, Hhead.
    destruct (serveAll p request rest w1) as [w2 reps] eqn:Hrest. simpl in Hi.
    destruct i as [|i]; simpl in Hi.
    + injection Hi as <-. exact Hhead.
    + pose proof (serveAll_window_headers p request rest w1 r 1 (t0 + windowMs p)
                    Hs Hk1 Hr1 Hall i rep') as H.
      rewrite Hrest in H. specialize (H Hi).
      replace (Z.of_nat (S (S i))) with (1 + Z.of_nat i + 1) by lia. exact H.
  - pose proof (serve_reject p request t0 c0 w _ _ _ E ltac:(simpl; lia)) as Hserve.
    rewrite Hserve in Hi, Hhead.
    match type of Hserve with _ = (?w1, _) =>
      destruct (serveAll p request rest w1) as [w2 reps] eqn:Hrest;
      pose proof (serveAll_window_headers p request rest w1 (length (heap w)) 0
                    (t0 + windowMs p) Hs) as H
    end.
    simpl in Hi. destruct i as [|i]; simpl in Hi.
    + injection Hi as <-. exact Hhead.
    + rewrite Hrest in H.
      specialize (H ltac:(by (simpl; rewrite lookup_insert_eq))
                    ltac:(by (simpl; rewrite lookup_app_r, Nat.sub_diag by lia))
                    Hall i rep' Hi).
      replace (Z.max 0 (max p - Z.of_nat (S (S i))))
        with (Z.max 0 (max p - (0 + Z.of_nat i + 1))) by lia.
      exact H.
Qed.

(** Five requests one after the other under limit 3: Remaining 2, 1, 0, 0, 0. *)
Lemma remaining_counts_finished_requests_witness :
  standardHeaders scenarioPolicy = true
  ∧ lookupLive emptyWorld 0 "1.2.3.4" = None
  ∧ ∀ (i : nat) rep',
      (serveAll scenarioPolicy client
         [(0, 200); (10, 200); (20, 404); (30, 200); (40, 500)] emptyWorld).2 !! i
        = Some rep' →
      headers rep' !! "RateLimit-Limit" = Some (HStr "3")
      ∧ headers rep' !! "RateLimit-Remaining"
        = Some (HStr (toString (Z.max 0 (3 - Z.of_nat (S i)))))
      ∧ headers rep' !! "RateLimit-Reset" = Some (HIsoDate 60000).
Proof.
  split; [reflexivity|]. split; [reflexivity|].
  destruct (remaining_counts_finished_requests scenarioPolicy client 0 emptyWorld freshReply
              0 200 [(10, 200); (20, 404); (30, 200); (40, 500)]) as [_ H].
  - reflexivity.
  - apply H.
    + reflexivity.
    + reflexivity.
    + repeat (apply Forall_cons_2; [split; [simpl; lia | reflexivity]|]). apply Forall_nil_2.
Defined.

(** * Exempt requests and the quota *)

(** An exempt request leaves the store as the middleware left it at arrival. *)
Lemma serve_world_exempt p request now code w :
  shouldCount p code = false →
  (serve p request now code w).1 = (observe p (keyGenerator p request) now w).1.1.
Proof.
  intros Hex.
  destruct (observe p (keyGenerator p request) now w) as [[w1 r] d] eqn:E.
  destruct (Z.le_gt_cases (max p) (count d)) as [Hc|Hc].
  - by rewrite (serve_reject _ _ _ _ _ _ _ _ E Hc).
  - rewrite (serve_admit _ _ _ _ _ _ _ _ E Hc). simpl. by apply onFinish_exempt.
Qed.

(** What the middleware did at [now] does not change the count a request
    at a later time [t] finds. *)
Lemma observe_count_after p p' key now t w :
  now ≤ t →
  count (observe p' key t (observe p key now w).1.1).2 = count (observe p' key t w).2.
Proof.
  intros Ht.
  destruct (lookupLive w now key) as [[r d]|] eqn:HL.
  - rewrite (observe_live _ _ _ _ _ _ HL). simpl.
    unfold observe. by rewrite sweep_sweep.
  - rewrite (observe_fresh _ _ _ _ HL). simpl.
    rewrite (observe_fresh p' key t w (lookupLive_later _ _ _ _ Ht HL)). simpl.
    set (w1 := {| heap := heap w ++ [{| count := 0; resetTime := now + windowMs p |}];
                  rateLimitStore := <[key := length (heap w)]>
                                      (rateLimitStore (sweep now w)) |}).
    assert (rateLimitStore w1 !! key = Some (length (heap w))) as Hk
      by (unfold w1; simpl; by rewrite lookup_insert_eq).
    assert (heap w1 !! length (heap w)
            = Some {| count := 0; resetTime := now + windowMs p |}) as Hr
      by (unfold w1; simpl; by rewrite lookup_app_r, Nat.sub_diag by lia).
    destruct (Z.lt_ge_cases t (now + windowMs p)) as [Hlive|Hexp].
    + assert (lookupLive w1 t key
              = Some (length (heap w), {| count := 0; resetTime := now + windowMs p |}))
        as HL1 by (by apply lookupLive_Some).
      by rewrite (observe_live _ _ _ _ _ _ HL1).
    + assert (lookupLive w1 t key = None) as HL1.
      { apply (lookupLive_expired _ _ _ {| count := 0; resetTime := now + windowMs p |});
          [apply record_Some; eauto | simpl; lia]. }
      by rewrite (observe_fresh _ _ _ _ HL1).
Qed.

(** Whether a served request was rejected is decided by the count it found. *)
Lemma serve_sent p request now code w :
  sent (serve p request now code w).2
  = (max p <=? count (observe p (keyGenerator p request) now w).2).
Proof.
  destruct (observe p (keyGenerator p request) now w) as [[w1 r] d] eqn:E. simpl.
  destruct (Z.leb_spec (max p) (count d)) as [Hc|Hc].
  - by rewrite (serve_reject _ _ _ _ _ _ _ _ E Hc).
  - rewrite (serve_admit _ _ _ _ _ _ _ _ E Hc). simpl.
    by rewrite sent_oldHeaders, sent_stdHeaders.
Qed.

Lemma serveAll_exempt_count p request reqs t :
  ∀ w,
  Forall (λ nc : Z * Z, exempt p nc.2 ∧ nc.1 ≤ t) reqs →
  count (observe p (keyGenerator p request) t (serveAll p request reqs w).1).2
  = count (observe p (keyGenerator p request) t w).2.
Proof.
  induction reqs as [|[now code] reqs IH]; intros w Hall; [done|].
  apply Forall_cons in Hall as [[Hex Hnow] Hall]. simpl in Hex, Hnow. simpl.
  destruct (serve p request now code w) as [w1 rep] eqn:Hserve.
  destruct (serveAll p request reqs w1) as [w2 reps] eqn:Hrest. simpl.
  pose proof (IH w1 Hall) as H. rewrite Hrest in H. simpl in H. rewrite H.
  pose proof (serve_world_exempt p request now code w (shouldCount_exempt _ _ Hex)) as Hw.
  rewrite Hserve in Hw. simpl in Hw. rewrite Hw. by apply observe_count_after.
Qed.

(** C6: requests whose final status a skip flag exempts (status at least 400
    under [skipFailedRequests], 2xx under [skipSuccessfulRequests]) consume no
    quota, whatever the key's history: after any number of them, served one
    after the other, a later request for the key finds the same count as it
    would have found without them and is admitted or rejected as it would
    have been.  In particular, on a key with no counted request and a limit
    of at least 1, each of them is admitted and so is the request after
    them. *)
Theorem exempt_requests_consume_no_quota p request reqs now' code' w :
  let key := keyGenerator p request in
  let w' := (serveAll p request reqs w).1 in
  Forall (λ nc : Z * Z, exempt p nc.2 ∧ nc.1 ≤ now') reqs →
  count (observe p key now' w').2 = count (observe p key now' w).2
  ∧ sent (serve p request now' code' w').2 = sent (serve p request now' code' w).2
  ∧ (0 < max p →
     (∀ d, record w key = Some d → count d = 0) →
     Forall (λ rep, sent rep = false) (serveAll p request reqs w).2
     ∧ sent (serve p request now' code' w').2 = false
     ∧ (standardHeaders p = true →
        remainingOf (serve p request now' code' w').2 = Some (HStr (toString (max p - 1))))).
Proof.
  intros key w' Hall. subst key w'.
  pose proof (serveAll_exempt_count p request reqs now' w Hall) as Hcount.
  split; [done|]. split; [by rewrite !serve_sent, Hcount|].
  intros Hmax Hinv.
  destruct (exempt_requests_on_unused_key p request reqs now' code' w Hmax Hinv)
    as (w2 & reps & Hrun & Hreps & Hnext).
  { eapply Forall_impl; [exact Hall|]. by intros nc [? _]. }
  rewrite Hrun. simpl. by split.
Qed.

(** Limit 5 with failures skipped: one counted request, then five requests
    ending in status 500, then a seventh. *)
Lemma exempt_requests_consume_no_quota_witness :
  let w := (serve failurePolicy client 0 200 emptyWorld).1 in
  let w' := (serveAll failurePolicy client
               [(1000, 500); (2000, 500); (3000, 500); (4000, 500); (5000, 500)] w).1 in
  record w "1.2.3.4" = Some {| count := 1; resetTime := 900000 |}
  ∧ count (observe failurePolicy "1.2.3.4" 6000 w').2 = 1
  ∧ sent (serve failurePolicy client 6000 500 w').2 = false.
Proof.
  intros w w'.
  assert (count (observe failurePolicy "1.2.3.4" 6000 w).2 = 1) as Hc
    by (vm_compute; reflexivity).
  assert (sent (serve failurePolicy client 6000 500 w).2 = false) as Hs
    by (vm_compute; reflexivity).
  destruct (exempt_requests_consume_no_quota failurePolicy client
              [(1000, 500); (2000, 500); (3000, 500); (4000, 500); (5000, 500)] 6000 500 w)
    as (H1 & H2 & _).
  - repeat (apply Forall_cons_2;
            [split; [left; split; [reflexivity | simpl; lia] | simpl; lia]|]).
    apply Forall_nil_2.
  - split; [vm_compute; reflexivity|]. split.
    + fold w' in H1. simpl in H1. rewrite <- Hc. exact H1.
    + fold w' in H2. rewrite <- Hs. exact H2.
Defined.

(** Scenario 3 of the spec: limit 5, failures skipped, five requests ending
    in status 500 on a fresh key, then a sixth. *)
Example scenario3 :
  let '(w, reps) := serveAll failurePolicy client
                      [(0, 500); (1000, 500); (2000, 500); (3000, 500); (4000, 500)]
                      emptyWorld in
  (sent <$> reps) = [false; false; false; false; false]
  ∧ record w "1.2.3.4" = Some {| count := 0; resetTime := 900000 |}
  ∧ sent (serve failurePolicy client 5000 500 w).2 = false.
Proof. vm_compute. split_and!; reflexivity. Qed.
